(** * error_catcher: the [silent] traceback decorator

    A shallow embedding of [error_catcher/error_catcher.py]:
    [parse_vars], [variable_catching] and the [decorated] wrapper that
    [silent] builds, followed by the properties of the report they
    produce.

    Python strings are modelled by [string], dictionaries by [gmap],
    lists by [list], and a statement that may raise by the [result]
    monad.  The interpreter services the module calls ([time.strftime],
    [traceback.format_exc], [inspect.getinnerframes], [cgitb.scanvars],
    [print], [open]) are not part of the module: what they return, or
    raise, is carried by the exception information and by the [world]
    the call runs in. *)

From stdpp Require Import gmap strings list pretty.

Module ErrorCatcher.

(** ** Exceptions and statements that may raise *)

Inductive exc_kind :=
| ZeroDivisionError
| IndexError
| AttributeError
| NameError
| TypeError
| ValueError
| PermissionError
| FileNotFoundError
| KeyboardInterrupt
| SystemExit
| UnicodeEncodeError
| UserError (cls : string).

Record exn := Exn { exn_kind : exc_kind; exn_msg : string }.

Inductive result (A : Type) :=
| Ok (a : A)
| Raise (e : exn).
Arguments Ok {A} a.
Arguments Raise {A} e.

#[global] Instance result_ret : MRet result := λ A a, Ok a.

#[global] Instance result_bind : MBind result := λ A B k m,
  match m with
  | Ok a => k a
  | Raise e => Raise e
  end.

Definition raises {A} (m : result A) : bool :=
  match m with Ok _ => false | Raise _ => true end.

(** [for x in xs: st = step(st, x)] where the body may raise. *)
Fixpoint for_each {S A} (step : S → A → result S) (st : S) (xs : list A)
  : result S :=
  match xs with
  | [] => Ok st
  | x :: rest => st' ← step st x ; for_each step st' rest
  end.

(** [[f(x) for x in xs]] where [f] may raise; used by the closed forms. *)
Fixpoint map_result {A B} (f : A → result B) (xs : list A) : result (list B) :=
  match xs with
  | [] => Ok []
  | x :: rest => y ← f x ; ys ← map_result f rest ; Ok (y :: ys)
  end.

(** ** Strings *)

(** [s[:n]] *)
Fixpoint str_take (n : nat) (s : string) : string :=
  match n, s with
  | S n', String c s' => String c (str_take n' s')
  | _, _ => ""
  end.

(** [s[n:]] *)
Fixpoint str_drop (n : nat) (s : string) : string :=
  match n, s with
  | S n', String c s' => str_drop n' s'
  | _, _ => s
  end.

(** [s * n] *)
Fixpoint str_repeat (s : string) (n : nat) : string :=
  match n with
  | O => ""
  | S n' => s +:+ str_repeat s n'
  end.

Definition newline : string := String (Ascii.ascii_of_nat 10) "".

(** A Python string is true when it is not empty. *)
Definition str_truthy (s : string) : bool :=
  match s with "" => false | _ => true end.

(** ** Values *)

(** The objects a frame can bind a name to.  Only two things are ever
    asked of a value: its default string conversion (in an f-string) and
    whether it [is] the module's [__UNDEF__] list.  [VObject] is an
    instance of a user class, given by what its [__str__] does.
    [VOwnUndef] is the list created at line 40 of [error_catcher.py];
    [VCgitbUndef] is the list of the same name inside [cgitb], a
    different object. *)
Inductive value :=
| VNone
| VInt (n : Z)
| VStr (s : string)
| VObject (shown : result string)
| VOwnUndef
| VCgitbUndef.

(** [value is __UNDEF__], in the name space of [error_catcher.py] *)
Definition is_UNDEF (v : value) : bool :=
  match v with VOwnUndef => true | _ => false end.

(** [f'{value}'] *)
Definition py_format (v : value) : result string :=
  match v with
  | VNone => Ok "None"
  | VInt n => Ok (pretty n)
  | VStr s => Ok s
  | VObject shown => shown
  | VOwnUndef | VCgitbUndef => Ok "[]"
  end.

(** [f'{where}'] for the second component of a [cgitb] triple, which is
    a string or [None]. *)
Definition fmt_where (where_ : option string) : string :=
  match where_ with Some s => s | None => "None" end.

(** [if where:] *)
Definition where_truthy (where_ : option string) : bool :=
  match where_ with Some s => str_truthy s | None => false end.

(** A triple [(name, where, value)] as [cgitb] builds them ([where] is
    reserved in Rocq, hence [where_]). *)
Definition finding : Type := string * option string * value.

Definition f_name (x : finding) : string := x.1.1.
Definition f_where (x : finding) : option string := x.1.2.
Definition f_value (x : finding) : value := x.2.

(** ** [parse_vars] (lines 43-55) *)

Definition parse_step (st : gmap string Z * list string) (item : finding)
  : result (gmap string Z * list string) :=
  let '(done, dump) := st in
  let '(name, where_, value) := item in
  if decide (is_Some (done !! name)) then Ok (done, dump)
  else
    let done := <[name := 1%Z]> done in
    if negb (is_UNDEF value) then
      shown ← py_format value ;
      Ok (done, dump ++ [fmt_where where_ +:+ ": " +:+ name +:+ " = " +:+ shown])
    else
      Ok (done, dump ++ [name +:+ " undefined"]).

Definition parse_vars (vars : list finding) : result (list string) :=
  st ← for_each parse_step (∅, []) vars ; Ok st.2.

(** ** Frames *)

(** What [cgitb.lookup] reads of a frame: [f_globals], and the names of
    [f_globals['__builtins__']] when that entry exists ([None] when it
    does not). *)
Record frame := Frame {
  f_locals : gmap string value;
  f_globals : gmap string value;
  f_builtins : option (gmap string value)
}.

(** One entry of [inspect.getinnerframes(...)]: [record[0]], [record[1]]
    and [record[2]], together with what [cgitb.scanvars(reader, frame,
    locals)] does for the logical line that starts at [lnum]: it returns
    a list of triples, or it raises (the tokenizer on a line it cannot
    read, or [getattr] on an attribute whose getter raises). *)
Record record := Record_ {
  r_frame : frame;
  r_file : string;
  r_lnum : Z;
  r_scanvars : result (list finding)
}.

(** The triples of a frame when [cgitb.scanvars] returns. *)
Definition scanned (rec : record) : list finding :=
  match r_scanvars rec with
  | Ok vars => vars
  | Raise _ => []
  end.

(** [cgitb.lookup(name, frame, locals)] of the Python standard library:
    locals, then globals, then builtins, else [(None, __UNDEF__)] with
    [cgitb]'s own [__UNDEF__]. *)
Definition lookup (name : string) (fr : frame) (locals : gmap string value)
  : option string * value :=
  match locals !! name with
  | Some v => (Some "local", v)
  | None =>
    match f_globals fr !! name with
    | Some v => (Some "global", v)
    | None =>
      match f_builtins fr with
      | Some builtins =>
        match builtins !! name with
        | Some v => (Some "builtin", v)
        | None => (None, VCgitbUndef)
        end
      | None => (None, VCgitbUndef)
      end
    end
  end.

(** ** [variable_catching] (lines 58-106) *)

(** Lines 83-87, the body of [for key_var in key_vars]. *)
Definition manual_step (fr : frame) (locals : gmap string value)
    (done : list string) (_manual_caught_vars : list finding)
    (key_var : string) : list finding :=
  if bool_decide (key_var ∉ done) then
    let '(where_, value) := lookup key_var fr locals in
    if where_truthy where_ then _manual_caught_vars ++ [(key_var, where_, value)]
    else _manual_caught_vars
  else _manual_caught_vars.

(** Lines 99-100 and 104-105: one report line per entry, cut by
    [var[:200]]. *)
Definition emit_vars (error_message : string) (vars : list string) : string :=
  foldl (λ msg var, msg +:+ "  |-- " +:+ str_take 200 var +:+ newline)
        error_message vars.

Definition variables_header : string := "/*Variables*/" +:+ newline.
Definition detected_header : string := "|-- Detected relevant vars:" +:+ newline.
Definition traced_header : string := "|-- Other traced vars:" +:+ newline.

(** The body of [for record in records], on the pair
    [(error_message, flag)]; [flag] is the integer 1 or 0 of the source,
    used as a truth value only. *)
Definition frame_step (key_vars : list string) (st : string * bool)
    (rec : record) : result (string * bool) :=
  let '(error_message, flag) := st in
  let frame := r_frame rec in
  let file := r_file rec in
  let lnum := r_lnum rec in
  let locals := f_locals frame in
  _auto_caught_vars ← r_scanvars rec ;
  auto_caught_vars ← parse_vars _auto_caught_vars ;
  let done := map f_name _auto_caught_vars in
  let _manual_caught_vars := foldl (manual_step frame locals done) [] key_vars in
  manual_caught_vars ← parse_vars _manual_caught_vars ;
  let '(error_message, flag) :=
    if bool_decide (length auto_caught_vars + length manual_caught_vars ≠ 0) then
      let '(error_message, flag) :=
        if flag then (error_message +:+ variables_header, false)
        else (error_message, flag) in
      (error_message +:+ file +:+ ", line " +:+ pretty lnum +:+ newline, flag)
    else (error_message, flag) in
  let error_message :=
    match auto_caught_vars with
    | [] => error_message
    | _ => emit_vars (error_message +:+ detected_header) auto_caught_vars
    end in
  let error_message :=
    match manual_caught_vars with
    | [] => error_message
    | _ => emit_vars (error_message +:+ traced_header) manual_caught_vars
    end in
  Ok (error_message, flag).

(** [records] stands for [inspect.getinnerframes(sys.exc_info()[2], 20)]. *)
Definition variable_catching (key_vars : list string) (records : list record)
  : result string :=
  st ← for_each (frame_step key_vars) ("", true) records ; Ok st.1.

(** ** The world a call runs in *)

(** [stdout] is the text written to standard output so far, [fs] the
    text files by path, [unopenable] the paths whose file cannot be
    used, which [open] fails on,
    [clock] what [time.strftime("%Y-%m-%d %H:%M:%S", time.localtime())]
    returns, and [stdout_error] the exception that writing a text to
    standard output raises, if any (a text the stream cannot encode, a
    closed stream). *)
Record world := World {
  stdout : string;
  fs : gmap string string;
  unopenable : gset string;
  clock : string;
  stdout_error : string → option exn
}.

(** The world once [text] and a line break are written to standard
    output. *)
Definition printed (text : string) (w : world) : world :=
  World (stdout w +:+ text +:+ newline) (fs w) (unopenable w) (clock w)
        (stdout_error w).

(** [print(text)]: the text and a line break, or the exception of the
    stream with nothing written. *)
Definition print (text : string) (w : world) : result world :=
  match stdout_error w text with
  | Some e => Raise e
  | None => Ok (printed text w)
  end.

Definition set_file (path content : string) (w : world) : world :=
  World (stdout w) (<[path := content]> (fs w)) (unopenable w) (clock w)
        (stdout_error w).

Definition file_content (path : string) (w : world) : string :=
  default "" (fs w !! path).

(** [open(path, 'a+')]: the file is created, empty, when it is absent. *)
Definition open_append (path : string) (w : world) : result world :=
  if bool_decide (path ∈ unopenable w) then Raise (Exn PermissionError path)
  else
    match fs w !! path with
    | Some _ => Ok w
    | None => Ok (set_file path "" w)
    end.

(** [open(path, 'r+')]: the file has to exist. *)
Definition open_update (path : string) (w : world) : result world :=
  if bool_decide (path ∈ unopenable w) then Raise (Exn PermissionError path)
  else
    match fs w !! path with
    | Some _ => Ok w
    | None => Raise (Exn FileNotFoundError path)
    end.

(** [f.write(text)] on a handle opened with ['a+'], once flushed: the
    text goes to the end of the file. *)
Definition write_end (path text : string) (w : world) : world :=
  set_file path (file_content path w +:+ text) w.

(** [f.write(text)] on a handle opened with ['r+'] and positioned at
    [pos], once flushed: the text overwrites the file from [pos] on and
    what lies beyond the written text stays. *)
Definition write_at (path : string) (pos : nat) (text : string) (w : world)
  : world :=
  let old := file_content path w in
  set_file path
    (str_take pos old +:+ text +:+ str_drop (pos + String.length text) old) w.

(** ** [silent] and [decorated] (lines 108-169) *)

Record config := Config {
  key_vars : list string;
  log_file : string;
  ascending : bool
}.

(** What is known of an exception in the [except] clause:
    [traceback.format_exc()] and [inspect.getinnerframes] of its
    traceback. *)
Record exc_info := ExcInfo {
  exc : exn;
  format_exc : string;
  innerframes : list record
}.

Inductive outcome :=
| Returned (v : value)
| Raised (ei : exc_info).

(** A zero-argument callable: it may change the world, and returns or
    raises. *)
Definition callable : Type := world → world * outcome.

(** Lines 146-153: the text of the report. *)
Definition report (cfg : config) (timestamp : string) (ei : exc_info)
  : result string :=
  let error_message :=
    str_repeat "-" 32 +:+ newline +:+ timestamp +:+ newline +:+ newline
    +:+ "/*Original Traceback*/" +:+ newline +:+ format_exc ei +:+ newline in
  caught ← variable_catching (key_vars cfg) (innerframes ei) ;
  let error_message := error_message +:+ caught in
  Ok (if str_truthy error_message then error_message +:+ newline +:+ newline
      else error_message).

(** Lines 157-164: the two [with] blocks. *)
Definition persist (cfg : config) (error_message : string) (w : world)
  : result world :=
  w ← open_append (log_file cfg) w ;
  if ascending cfg then Ok (write_end (log_file cfg) error_message w)
  else
    w ← open_update (log_file cfg) w ;
    let content := file_content (log_file cfg) w in
    Ok (write_at (log_file cfg) 0 (error_message +:+ content) w).

(** Lines 141-166.  When the call raises, the world it returns is the
    world as the statement that raised left it. *)
Definition decorated (cfg : config) (func : callable) (w : world)
  : world * result value :=
  match func w with
  | (w, Returned _) => (w, Ok VNone)
  | (w, Raised ei) =>
    let timestamp := clock w in
    match report cfg timestamp ei with
    | Raise e => (w, Raise e)
    | Ok error_message =>
      if str_truthy (log_file cfg) then
        match print ("Exception caught. See " +:+ log_file cfg +:+ ".") w with
        | Raise e => (w, Raise e)
        | Ok w =>
          match persist cfg error_message w with
          | Raise e => (w, Raise e)
          | Ok w => (w, Ok VNone)
          end
        end
      else
        match print error_message w with
        | Raise e => (w, Raise e)
        | Ok w => (w, Ok VNone)
        end
    end
  end.

(** A call of [decorated] with positional arguments [args] and keyword
    arguments [kwargs]: [decorated] is declared without parameters, so
    binding any argument fails before its body runs. *)
Definition call_decorated (cfg : config) (func : callable)
    (args : list value) (kwargs : list (string * value)) (w : world)
  : world * result value :=
  match args, kwargs with
  | [], [] => decorated cfg func w
  | _ :: _, _ =>
    (w, Raise (Exn TypeError "takes 0 positional arguments"))
  | [], _ :: _ =>
    (w, Raise (Exn TypeError "got an unexpected keyword argument"))
  end.

(** ** Closed forms of the report *)

(** The entries [parse_vars] keeps: the first one of every name.
    [seen] lists the names already met. *)
Fixpoint first_by_name (seen : list string) (vars : list finding)
  : list finding :=
  match vars with
  | [] => []
  | x :: rest =>
    if bool_decide (f_name x ∈ seen) then first_by_name seen rest
    else x :: first_by_name (f_name x :: seen) rest
  end.

(** The text [parse_vars] builds for one entry. *)
Definition render (x : finding) : result string :=
  if is_UNDEF (f_value x) then Ok (f_name x +:+ " undefined")
  else
    shown ← py_format (f_value x) ;
    Ok (fmt_where (f_where x) +:+ ": " +:+ f_name x +:+ " = " +:+ shown).

(** [_manual_caught_vars] of a frame, and the entries listed under each
    of the two headings. *)
Definition manual_caught (key_vars : list string) (rec : record)
  : list finding :=
  foldl (manual_step (r_frame rec) (f_locals (r_frame rec))
           (map f_name (scanned rec))) [] key_vars.

Definition detected (rec : record) : list finding :=
  first_by_name [] (scanned rec).

Definition traced (key_vars : list string) (rec : record) : list finding :=
  first_by_name [] (manual_caught key_vars rec).

(** One line of the report for one rendered entry. *)
Definition var_line (var : string) : string :=
  "  |-- " +:+ str_take 200 var +:+ newline.

Fixpoint str_concat (parts : list string) : string :=
  match parts with
  | [] => ""
  | p :: rest => p +:+ str_concat rest
  end.

(** The section of one frame, given the rendered entries of its two
    lists. *)
Record section := Section_ {
  s_file : string;
  s_lnum : Z;
  s_auto : list string;
  s_manual : list string
}.

Definition has_findings (sec : section) : bool :=
  bool_decide (s_auto sec ≠ [] ∨ s_manual sec ≠ []).

Definition frame_header (sec : section) : string :=
  s_file sec +:+ ", line " +:+ pretty (s_lnum sec) +:+ newline.

Definition block (heading : string) (vars : list string) : string :=
  match vars with
  | [] => ""
  | _ => heading +:+ str_concat (map var_line vars)
  end.

Definition section_text (sec : section) : string :=
  if has_findings sec then
    frame_header sec +:+ block detected_header (s_auto sec)
    +:+ block traced_header (s_manual sec)
  else "".

Definition frame_section (key_vars : list string) (rec : record)
  : result section :=
  _ ← r_scanvars rec ;
  auto ← map_result render (detected rec) ;
  manual ← map_result render (traced key_vars rec) ;
  Ok (Section_ (r_file rec) (r_lnum rec) auto manual).

Definition variables_text (secs : list section) : string :=
  if existsb has_findings secs then
    variables_header +:+ str_concat (map section_text secs)
  else "".

(** ** Sample calls

    The functions of [tests/test.py] all bind [i, j, k = 0, 1, 2] and
    fail on [return k / i]; [l = 4] is a global of the test module. *)

Definition world0 : world :=
  World "" ∅ ∅ "2020-05-17 10:00:00" (λ _, None).

Definition builtin_len : value := VObject (Ok "<built-in function len>").

Definition test_frame : frame :=
  Frame (list_to_map [("i", VInt 0); ("j", VInt 1); ("k", VInt 2)])
        (list_to_map [("l", VInt 4)])
        (Some (list_to_map [("len", builtin_len)])).

(** The frame of a test function, stopped on [return k / i]. *)
Definition division_record : record :=
  Record_ test_frame "test.py" 24
          (Ok [("k", Some "local", VInt 2); ("i", Some "local", VInt 0)]).

Definition division_error : exc_info :=
  ExcInfo (Exn ZeroDivisionError "division by zero")
          ("ZeroDivisionError: division by zero" +:+ newline)
          [division_record].

Definition foo : callable := λ w, (w, Raised division_error).

(** A frame stopped on a line that mentions no name. *)
Definition silent_record : record :=
  Record_ test_frame "test.py" 30 (Ok []).

(** An object whose [__str__] raises, bound to [b], in a frame stopped
    on [k + b.x]: [cgitb.scanvars] yields [k], [b] and the attribute
    [b.x], which [b] does not have. *)
Definition unprintable : value :=
  VObject (Raise (Exn ValueError "__str__ failed")).

Definition unprintable_record : record :=
  Record_ (Frame (list_to_map [("k", VInt 2); ("b", unprintable)]) ∅ None)
          "test.py" 41
          (Ok [("k", Some "local", VInt 2); ("b", Some "local", unprintable);
               ("b.x", Some "b.", VCgitbUndef)]).

Definition attribute_error : exc_info :=
  ExcInfo (Exn AttributeError "'B' object has no attribute 'x'")
          ("AttributeError: 'B' object has no attribute 'x'" +:+ newline)
          [unprintable_record].

(** A frame whose line reads a local string of 201 characters. *)
Definition long_text : string := str_repeat "a" 201.

Definition long_record : record :=
  Record_ (Frame (list_to_map [("x", VStr long_text)]) ∅ None)
          "test.py" 52
          (Ok [("x", Some "local", VStr long_text)]).

(** A callable that returns 7. *)
Definition seven : callable := λ w, (w, Returned (VInt 7)).

(** A frame stopped on [k + p.x] where reading the property [x] of [p]
    raises: [cgitb.scanvars] raises on it, every variable of the frame
    having a string conversion. *)
Definition getter_record : record :=
  Record_ (Frame (list_to_map [("k", VInt 2); ("p", VObject (Ok "<P>"))])
                 ∅ None)
          "test.py" 63
          (Raise (Exn ValueError "getter failed")).

Definition getter_error : exc_info :=
  ExcInfo (Exn ValueError "getter failed")
          ("ValueError: getter failed" +:+ newline)
          [getter_record].

(** A world whose standard output is closed. *)
Definition closed_stdout : world :=
  World "" ∅ ∅ "2020-05-17 10:00:00"
        (λ _, Some (Exn ValueError "I/O operation on closed file.")).

(** Goals of the shape "one of two lists is not empty", and their
    negations, on lists given by their constructors. *)
Ltac some_nonempty :=
  first [ by left | by right | by intros [?|?] ].

(** ** Strings: basic facts *)

Lemma str_app_nil_r (s : string) : s +:+ "" = s.
Proof.
  induction s as [|c s IH]; [reflexivity|].
  change (String c (s +:+ "") = String c s). by rewrite IH.
Qed.

Lemma str_app_assoc (s t u : string) : (s +:+ t) +:+ u = s +:+ (t +:+ u).
Proof.
  induction s as [|c s IH]; [reflexivity|].
  change (String c ((s +:+ t) +:+ u) = String c (s +:+ (t +:+ u))).
  by rewrite IH.
Qed.

Lemma str_length_app (s t : string) :
  String.length (s +:+ t) = String.length s + String.length t.
Proof.
  induction s as [|c s IH]; [reflexivity|].
  change (S (String.length (s +:+ t)) = S (String.length s + String.length t)).
  by rewrite IH.
Qed.

Lemma str_take_length (n : nat) (s : string) :
  String.length (str_take n s) = n `min` String.length s.
Proof.
  revert s; induction n as [|n IH]; intros [|c s]; simpl; try done.
  by rewrite IH.
Qed.

Lemma str_take_all (n : nat) (s : string) :
  String.length s ≤ n → str_take n s = s.
Proof.
  revert s; induction n as [|n IH]; intros [|c s]; simpl; try done; try lia.
  intros ?. rewrite IH; [done|lia].
Qed.

Lemma str_take_app (n : nat) (s t : string) :
  str_take n (s +:+ t)
  = str_take n s +:+ str_take (n - String.length s) t.
Proof.
  revert n; induction s as [|c s IH]; intros n.
  - by destruct n.
  - destruct n as [|n]; [reflexivity|].
    change (String c (str_take n (s +:+ t))
            = String c (str_take n s +:+ str_take (n - String.length s) t)).
    by rewrite IH.
Qed.

Lemma str_drop_all (n : nat) (s : string) :
  String.length s ≤ n → str_drop n s = "".
Proof.
  revert s; induction n as [|n IH]; intros [|c s]; simpl; try done; try lia.
  intros ?. apply IH. lia.
Qed.

(** ** The error monad and its loops *)

Lemma bind_Ok {A B} (a : A) (k : A → result B) : (Ok a ≫= k) = k a.
Proof. reflexivity. Qed.

Lemma map_result_Ok_length {A B} (f : A → result B) (xs : list A)
    (ys : list B) :
  map_result f xs = Ok ys → length ys = length xs.
Proof.
  revert ys; induction xs as [|x xs IH]; intros ys; simpl.
  - by intros [= <-].
  - destruct (f x) as [y|e]; [|done]. simpl.
    destruct (map_result f xs) as [ys'|e]; [|done]. simpl.
    intros [= <-]. simpl. f_equal. by apply IH.
Qed.

Lemma map_result_all_Ok {A B} (f : A → result B) (xs : list A) :
  (∀ x, x ∈ xs → raises (f x) = false) →
  ∃ ys, map_result f xs = Ok ys.
Proof.
  induction xs as [|x xs IH]; intros Hall; simpl; [by eexists|].
  pose proof (Hall x (list_elem_of_here _ _)) as Hx.
  destruct (f x) as [y|e]; [|done].
  destruct IH as [ys ->]; [intros; apply Hall; by right|].
  by eexists.
Qed.

Lemma map_result_Raise {A B} (f : A → result B) (xs : list A) (x : A) :
  x ∈ xs → raises (f x) = true → raises (map_result f xs) = true.
Proof.
  induction xs as [|y xs IH]; [by intros ?%not_elem_of_nil|].
  intros [->|Hin]%elem_of_cons Hx; simpl.
  - by destruct (f y).
  - destruct (f y); [|done]. simpl.
    specialize (IH Hin Hx). by destruct (map_result f xs).
Qed.

(** ** [parse_vars] renders the first entry of every name *)

Lemma render_triple (name : string) (where_ : option string) (value : value) :
  render (name, where_, value)
  = if is_UNDEF value then Ok (name +:+ " undefined")
    else shown ← py_format value ;
         Ok (fmt_where where_ +:+ ": " +:+ name +:+ " = " +:+ shown).
Proof. reflexivity. Qed.

Lemma parse_loop_spec (vars : list finding) :
  ∀ (done : gmap string Z) (dump : list string) (seen : list string),
    (∀ n, is_Some (done !! n) ↔ n ∈ seen) →
    (for_each parse_step (done, dump) vars ≫= λ st, Ok st.2)
    = (ys ← map_result render (first_by_name seen vars) ; Ok (dump ++ ys)).
Proof.
  induction vars as [|[[name where_] value] rest IH]; intros done dump seen Hinv.
  - simpl. by rewrite app_nil_r.
  - cbn [for_each first_by_name parse_step f_name fst snd].
    destruct (decide (is_Some (done !! name))) as [Hin|Hnin].
    + rewrite bind_Ok, bool_decide_eq_true_2 by by apply Hinv.
      by apply IH.
    + rewrite bool_decide_eq_false_2 by (by rewrite <- Hinv).
      assert (∀ n, is_Some (<[name:=1%Z]> done !! n) ↔ n ∈ name :: seen)
        as Hinv'.
      { intros n. rewrite lookup_insert_is_Some, elem_of_cons, <- Hinv.
        destruct (decide (name = n)) as [->|Hne]; [by split; auto|].
        split; [intros [?|[_ ?]]; [done|by right]|].
        intros [->|?]; [done|by right]. }
      cbn [map_result]. rewrite render_triple.
      destruct (is_UNDEF value); cbn [negb].
      * rewrite !bind_Ok. rewrite (IH _ _ _ Hinv').
        destruct (map_result render _) as [ys|e]; [|done].
        cbn. by rewrite <- app_assoc.
      * destruct (py_format value) as [shown|e]; [|done].
        rewrite !bind_Ok. rewrite (IH _ _ _ Hinv').
        destruct (map_result render _) as [ys|e]; [|done].
        cbn. by rewrite <- app_assoc.
Qed.

Lemma parse_vars_spec (vars : list finding) :
  parse_vars vars = map_result render (first_by_name [] vars).
Proof.
  unfold parse_vars. rewrite (parse_loop_spec vars ∅ [] []).
  - by destruct (map_result render _).
  - intros n. rewrite lookup_empty, elem_of_nil. split; [by intros [? ?]|done].
Qed.

(** ** [variable_catching] assembles the sections of the frames *)

Lemma emit_vars_spec (vars : list string) :
  ∀ msg, emit_vars msg vars = msg +:+ str_concat (map var_line vars).
Proof.
  unfold emit_vars.
  induction vars as [|var vars IH]; intros msg; simpl.
  - by rewrite str_app_nil_r.
  - rewrite IH. unfold var_line. by rewrite !str_app_assoc.
Qed.

Lemma has_findings_lengths (file : string) (lnum : Z)
    (auto manual : list string) :
  bool_decide (length auto + length manual ≠ 0)
  = has_findings (Section_ file lnum auto manual).
Proof.
  unfold has_findings. apply bool_decide_ext. cbn [s_auto s_manual].
  destruct auto, manual; cbn [length]; split;
    try (intros _; some_nonempty); try (intros [?|?]; done); intros; lia.
Qed.

Lemma section_text_empty (sec : section) :
  has_findings sec = false → section_text sec = "".
Proof. unfold section_text. by intros ->. Qed.

Lemma frame_step_spec (key_vars : list string) (msg : string) (flag : bool)
    (rec : record) :
  frame_step key_vars (msg, flag) rec
  = (sec ← frame_section key_vars rec ;
     Ok (msg
         +:+ (if flag && has_findings sec then variables_header else "")
         +:+ section_text sec,
         flag && negb (has_findings sec))).
Proof.
  unfold frame_step, frame_section, traced, manual_caught, detected, scanned.
  destruct (r_scanvars rec) as [vars|e]; [|done].
  rewrite !bind_Ok, !parse_vars_spec.
  destruct (map_result render (first_by_name [] vars)) as [auto|e]; [|done].
  rewrite !bind_Ok.
  destruct (map_result render (first_by_name [] _)) as [manual|e]; [|done].
  rewrite !bind_Ok.
  rewrite (has_findings_lengths (r_file rec) (r_lnum rec) auto manual).
  unfold section_text, has_findings, frame_header, block.
  cbn [s_auto s_manual s_file s_lnum].
  destruct auto as [|a auto], manual as [|m manual], flag;
    (rewrite bool_decide_eq_true_2 by some_nonempty)
    || (rewrite bool_decide_eq_false_2 by some_nonempty);
    cbn [andb negb]; rewrite ?emit_vars_spec;
    f_equal; f_equal; by rewrite ?str_app_assoc, ?str_app_nil_r.
Qed.

Lemma no_findings_concat (secs : list section) :
  existsb has_findings secs = false →
  str_concat (map section_text secs) = "".
Proof.
  induction secs as [|sec secs IH]; [done|].
  simpl. intros [Hsec Hsecs]%orb_false_elim.
  by rewrite (section_text_empty _ Hsec), (IH Hsecs).
Qed.

Lemma frames_loop_spec (key_vars : list string) (records : list record) :
  ∀ (msg : string) (flag : bool),
    for_each (frame_step key_vars) (msg, flag) records
    = (secs ← map_result (frame_section key_vars) records ;
       Ok (msg
           +:+ (if flag && existsb has_findings secs then variables_header
                else "")
           +:+ str_concat (map section_text secs),
           flag && negb (existsb has_findings secs))).
Proof.
  induction records as [|rec records IH]; intros msg flag.
  - simpl. rewrite andb_false_r, andb_true_r. by rewrite !str_app_nil_r.
  - cbn [for_each map_result]. rewrite frame_step_spec.
    destruct (frame_section key_vars rec) as [sec|e]; [|done].
    rewrite !bind_Ok, IH.
    destruct (map_result (frame_section key_vars) records) as [secs|e];
      [|done].
    rewrite !bind_Ok. cbn [existsb map str_concat].
    destruct flag, (has_findings sec) eqn:Hsec; cbn [andb negb orb];
      rewrite ?andb_true_r, ?andb_false_r;
      try (rewrite (section_text_empty _ Hsec));
      f_equal; f_equal; by rewrite ?str_app_assoc, ?str_app_nil_r.
Qed.

Lemma variable_catching_spec (key_vars : list string) (records : list record) :
  variable_catching key_vars records
  = (secs ← map_result (frame_section key_vars) records ;
     Ok (variables_text secs)).
Proof.
  unfold variable_catching. rewrite frames_loop_spec.
  destruct (map_result (frame_section key_vars) records) as [secs|e]; [|done].
  rewrite !bind_Ok. cbn [fst andb]. unfold variables_text.
  destruct (existsb has_findings secs) eqn:Hany; [done|].
  by rewrite (no_findings_concat _ Hany).
Qed.

(** ** The entries kept for a frame *)

Lemma first_by_name_subset (vars : list finding) :
  ∀ seen x, x ∈ first_by_name seen vars → x ∈ vars ∧ f_name x ∉ seen.
Proof.
  induction vars as [|y vars IH]; intros seen x; simpl.
  - by intros ?%not_elem_of_nil.
  - case_bool_decide as Hseen.
    + intros [? ?]%IH. split; [by right|done].
    + intros [->|Hin]%elem_of_cons; [split; [by left|done]|].
      apply IH in Hin as [? Hn]. split; [by right|].
      intros ?. apply Hn. by right.
Qed.

Lemma filter_none {A} (P : A → Prop) `{!∀ x, Decision (P x)} (l : list A) :
  (∀ x, x ∈ l → ¬ P x) → filter P l = [].
Proof.
  induction l as [|y l IH]; intros Hall; [done|].
  rewrite filter_cons_False by (apply Hall; by left).
  apply IH. intros x ?. apply Hall. by right.
Qed.

Lemma elem_of_names (x : finding) (vars : list finding) :
  x ∈ vars → f_name x ∈ map f_name vars.
Proof. rewrite !list_elem_of_In. apply in_map. Qed.

(** How many kept entries carry a given name. *)
Lemma first_by_name_count (name : string) (vars : list finding) :
  ∀ seen,
    length (filter (λ x, f_name x = name) (first_by_name seen vars))
    = if bool_decide (name ∈ seen) then 0
      else if bool_decide (name ∈ map f_name vars) then 1 else 0.
Proof.
  induction vars as [|y vars IH]; intros seen; cbn [first_by_name map].
  - rewrite filter_nil. cbn [length].
    destruct (bool_decide (name ∈ seen)); [done|].
    rewrite bool_decide_eq_false_2; [done|apply not_elem_of_nil].
  - destruct (bool_decide (f_name y ∈ seen)) eqn:Hy.
    + apply bool_decide_eq_true_1 in Hy. rewrite IH.
      destruct (bool_decide (name ∈ seen)) eqn:Hseen; [done|].
      apply bool_decide_eq_false_1 in Hseen.
      rewrite (bool_decide_ext (name ∈ f_name y :: map f_name vars)
                 (name ∈ map f_name vars)); [done|].
      rewrite elem_of_cons. split; [|by right].
      intros [->|?]; done.
    + apply bool_decide_eq_false_1 in Hy.
      rewrite filter_cons. destruct (decide (f_name y = name)) as [Heq|Hne].
      * subst name. cbn [length]. rewrite IH.
        rewrite (bool_decide_eq_true_2 (f_name y ∈ f_name y :: seen))
          by (by left).
        rewrite (bool_decide_eq_false_2 (f_name y ∈ seen)) by done.
        by rewrite bool_decide_eq_true_2 by (by left).
      * rewrite IH.
        rewrite (bool_decide_ext (name ∈ f_name y :: seen) (name ∈ seen)).
        2: { rewrite elem_of_cons. split; [|by right].
             intros [->|?]; done. }
        destruct (bool_decide (name ∈ seen)); [done|].
        rewrite (bool_decide_ext (name ∈ f_name y :: map f_name vars)
                   (name ∈ map f_name vars)); [done|].
        rewrite elem_of_cons. split; [|by right].
        intros [->|?]; done.
Qed.

(** What the manual loop appends: requested names, absent from the
    auto-detected ones, that [cgitb.lookup] finds somewhere. *)
Lemma manual_loop_entries (fr : frame) (done : list string)
    (key_vars : list string) :
  ∀ acc x,
    x ∈ foldl (manual_step fr (f_locals fr) done) acc key_vars →
    x ∈ acc ∨
    (f_name x ∈ key_vars ∧ (f_name x ∉ done)
     ∧ (lookup (f_name x) fr (f_locals fr) = (f_where x, f_value x))
     ∧ (where_truthy (f_where x) = true)).
Proof.
  induction key_vars as [|k key_vars IH]; intros acc x; simpl; [by left|].
  intros [Hacc|(? & ? & ? & ?)]%IH.
  - unfold manual_step in Hacc. case_bool_decide as Hk; [|by left].
    destruct (lookup k fr (f_locals fr)) as [where_ v] eqn:Hl.
    destruct (where_truthy where_) eqn:Ht; [|by left].
    apply elem_of_app in Hacc as [?|Hx%list_elem_of_singleton]; [by left|].
    subst x. right. cbn. split_and!; [by left|done|done|done].
  - right. split_and!; [by right|done|done|done].
Qed.

Lemma manual_caught_entries (key_vars : list string) (rec : record)
    (x : finding) :
  x ∈ manual_caught key_vars rec →
  f_name x ∈ key_vars ∧ (f_name x ∉ map f_name (scanned rec))
  ∧ (lookup (f_name x) (r_frame rec) (f_locals (r_frame rec))
     = (f_where x, f_value x))
  ∧ (where_truthy (f_where x) = true).
Proof.
  unfold manual_caught. intros [Hnil|?]%manual_loop_entries; [|done].
  by apply not_elem_of_nil in Hnil.
Qed.

(** ** When building the report raises *)

Lemma raises_map_result {A B} (f : A → result B) (xs : list A) :
  raises (map_result f xs) = true ↔ ∃ x, x ∈ xs ∧ raises (f x) = true.
Proof.
  split.
  - induction xs as [|x xs IH]; simpl; [done|].
    destruct (f x) as [y|e] eqn:Hfx.
    + rewrite bind_Ok. intros Hr.
      destruct IH as (x' & ? & ?).
      { by destruct (map_result f xs). }
      exists x'. split; [by right|done].
    + intros _. exists x. split; [by left|by rewrite Hfx].
  - intros (x & ? & ?). by eapply map_result_Raise.
Qed.

Lemma raises_render (x : finding) :
  raises (render x) = raises (py_format (f_value x)).
Proof.
  unfold render. destruct (f_value x) as [| | |[?|?]| |]; done.
Qed.

Lemma raises_entries (key_vars : list string) (rec : record) :
  raises (auto ← map_result render (detected rec) ;
          manual ← map_result render (traced key_vars rec) ;
          Ok (Section_ (r_file rec) (r_lnum rec) auto manual)) = true
  ↔ ∃ x, x ∈ detected rec ++ traced key_vars rec
         ∧ raises (py_format (f_value x)) = true.
Proof.
  setoid_rewrite elem_of_app. setoid_rewrite <- raises_render.
  destruct (map_result render (detected rec)) as [auto|e] eqn:Ha.
  - rewrite bind_Ok.
    destruct (map_result render (traced key_vars rec)) as [manual|e'] eqn:Hm.
    + split; [done|]. intros (x & [Hx|Hx] & Hr).
      * assert (raises (map_result render (detected rec)) = true) as Hc
          by (apply raises_map_result; eauto).
        by rewrite Ha in Hc.
      * assert (raises (map_result render (traced key_vars rec)) = true)
          as Hc by (apply raises_map_result; eauto).
        by rewrite Hm in Hc.
    + split; [|done]. intros _.
      assert (raises (map_result render (traced key_vars rec)) = true)
        as (x & ? & ?)%raises_map_result by (by rewrite Hm).
      exists x. auto.
  - split; [|done]. intros _.
    assert (raises (map_result render (detected rec)) = true)
      as (x & ? & ?)%raises_map_result by (by rewrite Ha).
    exists x. auto.
Qed.

Lemma raises_frame_section (key_vars : list string) (rec : record) :
  raises (frame_section key_vars rec) = true
  ↔ raises (r_scanvars rec) = true
    ∨ ∃ x, x ∈ detected rec ++ traced key_vars rec
           ∧ raises (py_format (f_value x)) = true.
Proof.
  unfold frame_section.
  destruct (r_scanvars rec) as [vars|e] eqn:Hscan.
  - rewrite bind_Ok, raises_entries. split; [by right|].
    by intros [?|?].
  - split; [by left|done].
Qed.

Lemma scanned_Ok (rec : record) (vars : list finding) :
  r_scanvars rec = Ok vars → scanned rec = vars.
Proof. unfold scanned. by intros ->. Qed.

(** ** Layout of the variables section *)

(** C8. [variable_catching] returns the empty text when no frame has a
    finding; otherwise it returns the header [/*Variables*/] once,
    followed by the sections of the frames in order, where a frame
    without findings contributes nothing and a frame with findings
    contributes its [file, line n] header, then the detected entries
    under their heading, then the traced entries under theirs (each
    heading only when its list is not empty). *)
Theorem variables_section_layout (key_vars : list string)
    (records : list record) :
  variable_catching key_vars records
  = (secs ← map_result (frame_section key_vars) records ;
     Ok (if existsb has_findings secs then
           variables_header
           +:+ str_concat
                 (map (λ sec,
                         if has_findings sec then
                           frame_header sec
                           +:+ block detected_header (s_auto sec)
                           +:+ block traced_header (s_manual sec)
                         else "")
                      secs)
         else "")).
Proof. apply variable_catching_spec. Qed.

(** A section has findings exactly when the frame has a detected or a
    traced entry. *)
Lemma frame_section_has_findings (key_vars : list string) (rec : record)
    (sec : section) :
  frame_section key_vars rec = Ok sec →
  has_findings sec
  = bool_decide (detected rec ≠ [] ∨ traced key_vars rec ≠ []).
Proof.
  unfold frame_section.
  destruct (r_scanvars rec) as [vars|e]; [|done]. rewrite bind_Ok.
  destruct (map_result render (detected rec)) as [auto|e] eqn:Ha; [|done].
  rewrite bind_Ok.
  destruct (map_result render (traced key_vars rec)) as [manual|e] eqn:Hm;
    [|done].
  rewrite bind_Ok. intros [= <-].
  apply map_result_Ok_length in Ha, Hm.
  unfold has_findings. cbn [s_auto s_manual]. apply bool_decide_ext.
  destruct auto, manual, (detected rec), (traced key_vars rec);
    try discriminate; split; intros [?|?];
    first [ done | by left | by right ].
Qed.

(** The text [frame_step] adds for a frame, line by line. *)
Lemma frame_step_lines (key_vars : list string) (msg : string) (flag : bool)
    (rec : record) :
  frame_step key_vars (msg, flag) rec
  = (_ ← r_scanvars rec ;
     auto ← map_result render (detected rec) ;
     manual ← map_result render (traced key_vars rec) ;
     let some := bool_decide (auto ≠ [] ∨ manual ≠ []) in
     Ok (msg
         +:+ (if flag && some then variables_header else "")
         +:+ (if some then
                r_file rec +:+ ", line " +:+ pretty (r_lnum rec) +:+ newline
              else "")
         +:+ block detected_header auto
         +:+ block traced_header manual,
         flag && negb some)).
Proof.
  rewrite frame_step_spec. unfold frame_section.
  destruct (r_scanvars rec) as [vars|e]; [|done]. rewrite !bind_Ok.
  destruct (map_result render (detected rec)) as [auto|e]; [|done].
  rewrite !bind_Ok.
  destruct (map_result render (traced key_vars rec)) as [manual|e]; [|done].
  rewrite !bind_Ok. cbn zeta.
  unfold section_text, has_findings, frame_header.
  cbn [s_auto s_manual s_file s_lnum].
  case_bool_decide as Hsome; [done|].
  destruct auto, manual; [done|destruct Hsome; some_nonempty..].
Qed.

(** ** Auto-detected names are not traced again *)

(** C4. In the frame of [rec], a name of [key_vars] that
    [cgitb.scanvars] returned has exactly one entry among the entries
    listed under [Detected relevant vars] and none among those listed
    under [Other traced vars]; the text [frame_step] adds is the
    section of the frame with one line per detected entry under the
    first heading and one line per traced entry under the second. *)
Theorem detected_name_listed_once (key_vars : list string) (rec : record)
    (name : string) (msg : string) (flag : bool) :
  name ∈ key_vars →
  name ∈ map f_name (scanned rec) →
  length (filter (λ x, f_name x = name) (detected rec)) = 1
  ∧ filter (λ x, f_name x = name) (traced key_vars rec) = []
  ∧ frame_step key_vars (msg, flag) rec
    = (auto ← map_result render (detected rec) ;
       manual ← map_result render (traced key_vars rec) ;
       Ok (msg
           +:+ (if flag then variables_header else "")
           +:+ r_file rec +:+ ", line " +:+ pretty (r_lnum rec) +:+ newline
           +:+ detected_header
           +:+ str_concat
                 (map (λ var, "  |-- " +:+ str_take 200 var +:+ newline) auto)
           +:+ match manual with
               | [] => ""
               | _ =>
                 traced_header
                 +:+ str_concat
                       (map (λ var, "  |-- " +:+ str_take 200 var +:+ newline)
                            manual)
               end,
           false)).
Proof.
  intros _ Hscan.
  assert (length (filter (λ x, f_name x = name) (detected rec)) = 1) as Hone.
  { unfold detected. rewrite first_by_name_count.
    rewrite bool_decide_eq_false_2 by apply not_elem_of_nil.
    by rewrite bool_decide_eq_true_2. }
  split; [done|]. split.
  - apply filter_none.
    intros x [Hx _]%first_by_name_subset Hname.
    apply manual_caught_entries in Hx as (_ & Hnot & _).
    by rewrite Hname in Hnot.
  - rewrite frame_step_lines.
    destruct (r_scanvars rec) as [vars|e] eqn:Hvars.
    2: { unfold scanned in Hscan. rewrite Hvars in Hscan.
         by apply not_elem_of_nil in Hscan. }
    rewrite bind_Ok.
    destruct (map_result render (detected rec)) as [auto|e] eqn:Hauto;
      [|done].
    rewrite !bind_Ok.
    destruct (map_result render (traced key_vars rec)) as [manual|e];
      [|done].
    rewrite !bind_Ok. cbn zeta.
    apply map_result_Ok_length in Hauto.
    destruct auto as [|a auto].
    { destruct (detected rec); [done|discriminate Hauto]. }
    rewrite bool_decide_eq_true_2 by (by left).
    rewrite andb_true_r. cbn [negb andb]. rewrite andb_false_r.
    f_equal. f_equal. unfold block, var_line.
    by rewrite !str_app_assoc.
Qed.

Lemma detected_name_listed_once_witness :
  "i" ∈ ["i"] ∧ "i" ∈ map f_name (scanned division_record)
  ∧ length (filter (λ x, f_name x = "i") (detected division_record)) = 1
  ∧ filter (λ x, f_name x = "i") (traced ["i"] division_record) = []
  ∧ frame_step ["i"] ("", true) division_record
    = Ok ("/*Variables*/" +:+ newline
          +:+ "test.py, line 24" +:+ newline
          +:+ "|-- Detected relevant vars:" +:+ newline
          +:+ "  |-- local: k = 2" +:+ newline
          +:+ "  |-- local: i = 0" +:+ newline, false).
Proof.
  assert ("i" ∈ ["i"]) as H1 by (by left).
  assert ("i" ∈ map f_name (scanned division_record)) as H2
    by (right; left).
  split; [exact H1|]. split; [exact H2|].
  destruct (detected_name_listed_once ["i"] division_record "i" "" true H1 H2)
    as (Hone & Hnone & Htext).
  split; [exact Hone|]. split; [exact Hnone|].
  rewrite Htext. reflexivity.
Defined.

(** ** Names that resolve nowhere *)

(** C5, as stated, fails for a builtin: [len] is neither a local nor a
    global of the frame, yet it is listed under the traced entries. *)
Lemma builtin_key_var_is_listed :
  f_locals test_frame !! "len" = None
  ∧ f_globals test_frame !! "len" = None
  ∧ traced ["len"] silent_record = [("len", Some "builtin", builtin_len)]
  ∧ variable_catching ["len"] [silent_record]
    = Ok ("/*Variables*/" +:+ newline
          +:+ "test.py, line 30" +:+ newline
          +:+ "|-- Other traced vars:" +:+ newline
          +:+ "  |-- builtin: len = <built-in function len>" +:+ newline).
Proof. vm_compute. done. Qed.

(** C5, amended. A name that is not a local, a global or a builtin of a
    frame has no traced entry in that frame; if [cgitb.scanvars] did not
    find it either, it has no entry at all there. *)
Theorem unresolved_key_var_omitted (key_vars : list string) (rec : record)
    (name : string) :
  f_locals (r_frame rec) !! name = None →
  f_globals (r_frame rec) !! name = None →
  (∀ builtins, f_builtins (r_frame rec) = Some builtins →
               builtins !! name = None) →
  filter (λ x, f_name x = name) (traced key_vars rec) = []
  ∧ (name ∉ map f_name (scanned rec) →
     filter (λ x, f_name x = name) (detected rec ++ traced key_vars rec) = []).
Proof.
  intros Hloc Hglob Hbuiltin.
  assert (filter (λ x, f_name x = name) (traced key_vars rec) = []) as Htr.
  { apply filter_none.
    intros x [Hx _]%first_by_name_subset Hname.
    apply manual_caught_entries in Hx as (_ & _ & Hlook & Htruthy).
    rewrite Hname in Hlook. unfold lookup in Hlook.
    rewrite Hloc, Hglob in Hlook.
    destruct (f_builtins (r_frame rec)) as [builtins|] eqn:Hb.
    - rewrite (Hbuiltin builtins eq_refl) in Hlook.
      injection Hlook as Hw _. by rewrite <- Hw in Htruthy.
    - injection Hlook as Hw _. by rewrite <- Hw in Htruthy. }
  split; [done|].
  intros Hscan. rewrite filter_app, Htr, app_nil_r.
  apply filter_none.
  intros x [Hx _]%first_by_name_subset Hname.
  apply Hscan. rewrite <- Hname. by apply elem_of_names.
Qed.

Lemma unresolved_key_var_omitted_witness :
  f_locals (r_frame division_record) !! "zz" = None
  ∧ f_globals (r_frame division_record) !! "zz" = None
  ∧ filter (λ x, f_name x = "zz") (traced ["zz"; "l"] division_record) = []
  ∧ ("zz" ∉ map f_name (scanned division_record) →
     filter (λ x, f_name x = "zz")
       (detected division_record ++ traced ["zz"; "l"] division_record) = []).
Proof.
  split; [reflexivity|]. split; [reflexivity|].
  apply (unresolved_key_var_omitted ["zz"; "l"] division_record "zz").
  - reflexivity.
  - reflexivity.
  - intros builtins [= <-]. reflexivity.
Defined.

(** A name read on the failing line that resolves nowhere comes back
    from [cgitb] with [cgitb]'s own [__UNDEF__], which is not the
    [__UNDEF__] of this module: its entry is not the [undefined] one. *)
Example unresolved_detected_name :
  parse_vars [("x", None, VCgitbUndef)] = Ok ["None: x = []"]
  ∧ parse_vars [("x", None, VOwnUndef)] = Ok ["x undefined"].
Proof. split; reflexivity. Qed.

(** ** Truncation of the report lines *)

(** C3, as stated, fails: a local [x] bound to 201 letters is shown
    with 189 of them, because the 200 characters are counted from the
    start of the entry [local: x = ...], not from the start of the
    value. *)
Lemma long_value_loses_prefix_length :
  py_format (VStr long_text) = Ok long_text
  ∧ variable_catching [] [long_record]
    = Ok ("/*Variables*/" +:+ newline
          +:+ "test.py, line 52" +:+ newline
          +:+ "|-- Detected relevant vars:" +:+ newline
          +:+ "  |-- local: x = " +:+ str_repeat "a" 189 +:+ newline)
  ∧ str_repeat "a" 189 ≠ str_take 200 long_text.
Proof. vm_compute. split_and!; done. Qed.

(** C3, amended. Every entry of a frame, detected or traced, is the
    text [where: name = value], or [name undefined], and its line in
    the report shows the first 200 characters of that whole entry: the
    text [frame_step] adds has, under each heading, one such line per
    entry.  The value's rendering is therefore cut to 200 characters
    less the length of [where: name = ], and an entry of at most 200
    characters is shown whole. *)
Theorem entry_cut_to_200 (key_vars : list string) (msg : string)
    (flag : bool) (rec : record) :
  let cut := λ var : string, "  |-- " +:+ str_take 200 var +:+ newline in
  let lines := λ (heading : string) (vars : list string),
    match vars with
    | [] => ""
    | _ => heading +:+ str_concat (map cut vars)
    end in
  frame_step key_vars (msg, flag) rec
  = (_ ← r_scanvars rec ;
     auto ← map_result render (detected rec) ;
     manual ← map_result render (traced key_vars rec) ;
     let some := bool_decide (auto ≠ [] ∨ manual ≠ []) in
     Ok (msg
         +:+ (if flag && some then variables_header else "")
         +:+ (if some then
                r_file rec +:+ ", line " +:+ pretty (r_lnum rec) +:+ newline
              else "")
         +:+ lines detected_header auto
         +:+ lines traced_header manual,
         flag && negb some))
  ∧ (∀ x,
       render x
       = if is_UNDEF (f_value x) then Ok (f_name x +:+ " undefined")
         else shown ← py_format (f_value x) ;
              Ok (fmt_where (f_where x) +:+ ": " +:+ f_name x +:+ " = "
                  +:+ shown))
  ∧ (∀ prefix shown,
       str_take 200 (prefix +:+ shown)
       = str_take 200 prefix +:+ str_take (200 - String.length prefix) shown)
  ∧ (∀ var, String.length (str_take 200 var) = 200 `min` String.length var)
  ∧ (∀ var, String.length var ≤ 200 → str_take 200 var = var).
Proof.
  intros cut lines. split_and!.
  - apply frame_step_lines.
  - done.
  - intros prefix shown. apply str_take_app.
  - intros var. apply str_take_length.
  - intros var. apply str_take_all.
Qed.

Lemma entry_cut_to_200_witness :
  frame_step [] ("", true) long_record
  = Ok ("/*Variables*/" +:+ newline
        +:+ "test.py, line 52" +:+ newline
        +:+ "|-- Detected relevant vars:" +:+ newline
        +:+ "  |-- " +:+ str_take 200 ("local: x = " +:+ long_text)
        +:+ newline, false)
  ∧ str_take 200 ("local: x = " +:+ long_text)
    = str_take 200 "local: x = " +:+ str_take (200 - 11) long_text
  ∧ str_take 200 "x undefined" = "x undefined".
Proof.
  destruct (entry_cut_to_200 [] "" true long_record)
    as (Htext & _ & Hsplit & _ & Hshort).
  split; [rewrite Htext; reflexivity|].
  split; [exact (Hsplit "local: x = " long_text)|].
  apply Hshort. cbn. lia.
Defined.

(** An entry of at most 200 characters is shown whole. *)
Lemma short_entry_shown_whole (msg var : string) :
  String.length var ≤ 200 →
  emit_vars msg [var] = msg +:+ "  |-- " +:+ var +:+ newline.
Proof.
  intros Hlen. unfold emit_vars. cbn [foldl].
  by rewrite (str_take_all _ _ Hlen).
Qed.

(** ** Failures while the report is built *)

(** C6, as stated, fails: one value whose string conversion raises
    aborts [variable_catching] (the entry of [k], which converts, is
    lost with it), and the exception leaves the decorated call with
    nothing printed about the original error. *)
Lemma unprintable_value_aborts_report :
  py_format (VInt 2) = Ok "2"
  ∧ variable_catching [] [unprintable_record]
    = Raise (Exn ValueError "__str__ failed")
  ∧ decorated (Config [] "" false) (λ w, (w, Raised attribute_error)) world0
    = (world0, Raise (Exn ValueError "__str__ failed")).
Proof. vm_compute. done. Qed.

(** The same happens when [cgitb.scanvars] itself raises, every value
    of the frame having a string conversion. *)
Example scanvars_failure_aborts_report :
  variable_catching ["k"] [division_record; getter_record]
  = Raise (Exn ValueError "getter failed").
Proof. reflexivity. Qed.

Lemma decorated_report_raises (cfg : config) (func : callable)
    (w w1 : world) (ei : exc_info) (e : exn) :
  func w = (w1, Raised ei) →
  variable_catching (key_vars cfg) (innerframes ei) = Raise e →
  decorated cfg func w = (w1, Raise e).
Proof.
  intros Hfunc Hcaught. unfold decorated, report.
  by rewrite Hfunc, Hcaught.
Qed.

(** C6, amended. [variable_catching] raises exactly when, in some
    frame, [cgitb.scanvars] raises or the string conversion of the
    value of a detected or traced entry raises.  The failure is not
    contained: the exception leaves [variable_catching] and, with it,
    the decorated call, before anything is printed or written. *)
Theorem report_raises_iff_unprintable (cfg : config) (ei : exc_info) :
  (raises (variable_catching (key_vars cfg) (innerframes ei)) = true
   ↔ ∃ rec, rec ∈ innerframes ei
            ∧ (raises (r_scanvars rec) = true
               ∨ ∃ x, x ∈ detected rec ++ traced (key_vars cfg) rec
                      ∧ raises (py_format (f_value x)) = true))
  ∧ (∀ func w w1 e,
       func w = (w1, Raised ei) →
       variable_catching (key_vars cfg) (innerframes ei) = Raise e →
       decorated cfg func w = (w1, Raise e)).
Proof.
  split; [|intros func w w1 e; apply decorated_report_raises].
  rewrite variable_catching_spec.
  assert (raises (secs ← map_result (frame_section (key_vars cfg))
                           (innerframes ei) ;
                  Ok (variables_text secs))
          = raises (map_result (frame_section (key_vars cfg))
                      (innerframes ei))) as ->.
  { by destruct (map_result (frame_section (key_vars cfg)) (innerframes ei)). }
  rewrite raises_map_result.
  split.
  - intros (rec & ? & Hr%raises_frame_section). by exists rec.
  - intros (rec & ? & Hr). exists rec. split; [done|].
    by apply raises_frame_section.
Qed.

Lemma report_raises_iff_unprintable_witness :
  raises (variable_catching ["k"] (innerframes getter_error)) = true
  ∧ decorated (Config ["k"] "" false) (λ w, (w, Raised getter_error)) world0
    = (world0, Raise (Exn ValueError "getter failed")).
Proof.
  destruct (report_raises_iff_unprintable (Config ["k"] "" false)
              getter_error) as [Hiff Hprop].
  split.
  - apply Hiff. exists getter_record. split; [by left|]. by left.
  - apply (Hprop (λ w, (w, Raised getter_error)) world0 world0
             (Exn ValueError "getter failed")); reflexivity.
Defined.

(** ** The log file *)

Lemma set_file_twice (path c1 c2 : string) (w : world) :
  set_file path c2 (set_file path c1 w) = set_file path c2 w.
Proof. unfold set_file. cbn. by rewrite insert_insert_eq. Qed.

Lemma file_content_set_file (path c : string) (w : world) :
  file_content path (set_file path c w) = c.
Proof. unfold file_content, set_file. cbn. by rewrite lookup_insert_eq. Qed.

(** Writing, from the start, a text at least as long as the file
    replaces the file. *)
Lemma write_at_start_longer (path text : string) (w : world) :
  String.length (file_content path w) ≤ String.length text →
  write_at path 0 text w = set_file path text w.
Proof.
  intros Hlen. unfold write_at. cbn [str_take Nat.add].
  rewrite (str_drop_all _ _ Hlen).
  change ("" +:+ text +:+ "") with (text +:+ "").
  by rewrite str_app_nil_r.
Qed.

Lemma persist_spec (cfg : config) (msg : string) (w : world) :
  log_file cfg ∉ unopenable w →
  persist cfg msg w
  = Ok (set_file (log_file cfg)
          (if ascending cfg then file_content (log_file cfg) w +:+ msg
           else msg +:+ file_content (log_file cfg) w) w).
Proof.
  intros Hopen. unfold persist, open_append.
  rewrite bool_decide_eq_false_2 by done.
  destruct (fs w !! log_file cfg) as [old|] eqn:Hold.
  - rewrite bind_Ok. destruct (ascending cfg); [done|].
    unfold open_update. rewrite bool_decide_eq_false_2 by done.
    rewrite Hold, bind_Ok. f_equal. apply write_at_start_longer.
    rewrite str_length_app. lia.
  - rewrite bind_Ok.
    assert (file_content (log_file cfg) w = "") as ->
      by (unfold file_content; by rewrite Hold).
    destruct (ascending cfg).
    + unfold write_end. by rewrite file_content_set_file, set_file_twice.
    + unfold open_update. cbn [unopenable set_file fs].
      rewrite bool_decide_eq_false_2 by done.
      rewrite lookup_insert_eq, bind_Ok. f_equal.
      rewrite write_at_start_longer.
      * by rewrite file_content_set_file, set_file_twice.
      * rewrite file_content_set_file. cbn. lia.
Qed.

Lemma persist_unopenable (cfg : config) (msg : string) (w : world) :
  log_file cfg ∈ unopenable w →
  persist cfg msg w = Raise (Exn PermissionError (log_file cfg)).
Proof.
  intros Hno. unfold persist, open_append.
  by rewrite bool_decide_eq_true_2.
Qed.

(** ** The decorated call *)

(** What the [except] clause does once the report is built. *)
Lemma decorated_raised (cfg : config) (func : callable) (w w1 : world)
    (ei : exc_info) (msg : string) :
  func w = (w1, Raised ei) →
  report cfg (clock w1) ei = Ok msg →
  decorated cfg func w
  = if str_truthy (log_file cfg) then
      let notice := "Exception caught. See " +:+ log_file cfg +:+ "." in
      match stdout_error w1 notice with
      | Some e => (w1, Raise e)
      | None =>
        let w2 := printed notice w1 in
        if bool_decide (log_file cfg ∈ unopenable w1) then
          (w2, Raise (Exn PermissionError (log_file cfg)))
        else
          (set_file (log_file cfg)
             (if ascending cfg then file_content (log_file cfg) w1 +:+ msg
              else msg +:+ file_content (log_file cfg) w1) w2,
           Ok VNone)
      end
    else
      match stdout_error w1 msg with
      | Some e => (w1, Raise e)
      | None => (printed msg w1, Ok VNone)
      end.
Proof.
  intros Hfunc Hreport. unfold decorated. rewrite Hfunc, Hreport.
  unfold print.
  destruct (str_truthy (log_file cfg)).
  - destruct (stdout_error w1 _) as [e|]; [done|].
    cbn zeta. case_bool_decide as Hopen.
    + by rewrite persist_unopenable.
    + by rewrite persist_spec.
  - by destruct (stdout_error w1 msg).
Qed.



(** The same with a report that is built and a standard output that is
    closed: the exception of [print] leaves the decorated call. *)
Example decorated_raises_on_closed_stdout :
  decorated (Config ["i"] "" false) (λ w, (w, Raised division_error))
    closed_stdout
  = (closed_stdout, Raise (Exn ValueError "I/O operation on closed file.")).
Proof. reflexivity. Qed.



(** C2, as stated, fails: the wrapped call returns 7 and the decorated
    call returns [None]. *)
Lemma return_value_discarded :
  seven world0 = (world0, Returned (VInt 7))
  ∧ decorated (Config [] "" false) seven world0 = (world0, Ok VNone)
  ∧ VNone ≠ VInt 7.
Proof. vm_compute. done. Qed.

(** C2, amended. When the wrapped call returns normally, the decorated
    call returns [None] and adds no effect of its own: nothing is
    printed or written beyond what the wrapped call did. *)
Theorem decorated_returns_None (cfg : config) (func : callable)
    (w w1 : world) (v : value) :
  func w = (w1, Returned v) →
  decorated cfg func w = (w1, Ok VNone).
Proof. intros Hfunc. unfold decorated. by rewrite Hfunc. Qed.

Lemma decorated_returns_None_witness :
  seven world0 = (world0, Returned (VInt 7))
  ∧ decorated (Config ["i"] "log.txt" true) seven world0 = (world0, Ok VNone).
Proof.
  split; [reflexivity|].
  apply (decorated_returns_None (Config ["i"] "log.txt" true) seven
           world0 world0 (VInt 7)).
  reflexivity.
Defined.

(** C9. When the wrapped call raises and the report [msg] is built:
    with an empty [log_file] the report and a line break are printed
    and no file changes; with a [log_file] only the notice naming it is
    printed, and the report is written to that file (after its content
    when [ascending], before it otherwise), unless the file cannot be
    opened, in which case the error of [open] leaves the call.  When
    [print] itself raises, nothing is printed or written and its error
    leaves the call. *)
Theorem report_printed_or_logged (cfg : config) (func : callable)
    (w w1 : world) (ei : exc_info) (msg : string) :
  func w = (w1, Raised ei) →
  report cfg (clock w1) ei = Ok msg →
  decorated cfg func w
  = if str_truthy (log_file cfg) then
      let notice := "Exception caught. See " +:+ log_file cfg +:+ "." in
      let old := default "" (fs w1 !! log_file cfg) in
      match stdout_error w1 notice with
      | Some e => (w1, Raise e)
      | None =>
        if bool_decide (log_file cfg ∈ unopenable w1) then
          (World (stdout w1 +:+ notice +:+ newline) (fs w1)
                 (unopenable w1) (clock w1) (stdout_error w1),
           Raise (Exn PermissionError (log_file cfg)))
        else
          (World (stdout w1 +:+ notice +:+ newline)
                 (<[log_file cfg :=
                      if ascending cfg then old +:+ msg else msg +:+ old]>
                    (fs w1))
                 (unopenable w1) (clock w1) (stdout_error w1),
           Ok VNone)
      end
    else
      match stdout_error w1 msg with
      | Some e => (w1, Raise e)
      | None =>
        (World (stdout w1 +:+ msg +:+ newline) (fs w1)
               (unopenable w1) (clock w1) (stdout_error w1),
         Ok VNone)
      end.
Proof.
  intros Hfunc Hreport.
  by rewrite (decorated_raised cfg func w w1 ei msg Hfunc Hreport).
Qed.

Lemma report_printed_or_logged_witness :
  ∃ msg,
    foo world0 = (world0, Raised division_error)
    ∧ report (Config ["i"] "" false) (clock world0) division_error = Ok msg
    ∧ decorated (Config ["i"] "" false) foo world0
      = (World (msg +:+ newline) ∅ ∅ (clock world0) (stdout_error world0),
         Ok VNone).
Proof.
  eexists. split; [reflexivity|]. split; [reflexivity|].
  apply (report_printed_or_logged (Config ["i"] "" false) foo
           world0 world0 division_error).
  - reflexivity.
  - reflexivity.
Defined.

(** C7. Two failures in a row are logged to the same file, the second
    wrapped call leaving the log file as the first report left it.
    With [ascending] the file ends with the first report then the
    second; otherwise it starts with the second report then the first.
    [old] is what the file held before, the empty text when it did not
    exist.  Logging takes place once the notice is printed, so both
    notices are taken to be printed. *)
Theorem two_failures_log_order (cfg : config) (f1 f2 : callable)
    (w0 wa wb : world) (ei1 ei2 : exc_info) (r1 r2 : string) :
  str_truthy (log_file cfg) = true →
  f1 w0 = (wa, Raised ei1) →
  report cfg (clock wa) ei1 = Ok r1 →
  stdout_error wa ("Exception caught. See " +:+ log_file cfg +:+ ".") = None →
  log_file cfg ∉ unopenable wa →
  f2 (decorated cfg f1 w0).1 = (wb, Raised ei2) →
  report cfg (clock wb) ei2 = Ok r2 →
  stdout_error wb ("Exception caught. See " +:+ log_file cfg +:+ ".") = None →
  log_file cfg ∉ unopenable wb →
  fs wb !! log_file cfg = fs (decorated cfg f1 w0).1 !! log_file cfg →
  let old := default "" (fs wa !! log_file cfg) in
  let w1 := (decorated cfg f1 w0).1 in
  let w2 := (decorated cfg f2 w1).1 in
  fs w1 !! log_file cfg
  = Some (if ascending cfg then old +:+ r1 else r1 +:+ old)
  ∧ fs w2 !! log_file cfg
    = Some (if ascending cfg then old +:+ r1 +:+ r2
            else r2 +:+ r1 +:+ old).
Proof.
  intros Hlog Hf1 Hr1 Hout1 Hopen1 Hf2 Hr2 Hout2 Hopen2 Hkept old w1 w2.
  assert (fs w1 !! log_file cfg
          = Some (if ascending cfg then old +:+ r1 else r1 +:+ old)) as Hw1.
  { subst w1. rewrite (decorated_raised cfg f1 w0 wa ei1 r1 Hf1 Hr1), Hlog.
    cbn zeta. rewrite Hout1, bool_decide_eq_false_2 by done.
    cbn. by rewrite lookup_insert_eq. }
  split; [done|].
  subst w2. fold w1 in Hf2, Hkept.
  rewrite (decorated_raised cfg f2 w1 wb ei2 r2 Hf2 Hr2), Hlog.
  cbn zeta. rewrite Hout2, bool_decide_eq_false_2 by done.
  cbn. rewrite lookup_insert_eq. unfold file_content.
  rewrite Hkept, Hw1. cbn.
  destruct (ascending cfg); [by rewrite str_app_assoc|done].
Qed.

Lemma two_failures_log_order_witness :
  let cfg := Config [""] "test_log.log" false in
  ∃ r,
    report cfg (clock world0) division_error = Ok r
    ∧ fs (decorated cfg foo (decorated cfg foo world0).1).1 !! "test_log.log"
      = Some (r +:+ r +:+ "").
Proof.
  intros cfg. eexists. split; [reflexivity|].
  refine (proj2 (two_failures_log_order cfg foo foo
                   world0 world0 (decorated cfg foo world0).1
                   division_error division_error _ _
                   eq_refl eq_refl eq_refl eq_refl _
                   eq_refl eq_refl eq_refl _ eq_refl)).
  - apply not_elem_of_empty.
  - apply not_elem_of_empty.
Defined.

(** The same two failures with [ascending=True]. *)
Example two_failures_ascending :
  let cfg := Config [""] "test_log.log" true in
  ∃ r,
    report cfg (clock world0) division_error = Ok r
    ∧ fs (decorated cfg foo (decorated cfg foo world0).1).1 !! "test_log.log"
      = Some (r +:+ r).
Proof. intros cfg. eexists. split; reflexivity. Qed.

(** C10. A call of the decorated callable with any positional or
    keyword argument raises [TypeError]; the wrapped callable is not
    run and nothing is printed or written, so the [try] block never
    gets to absorb that error. *)
Theorem decorated_rejects_arguments (cfg : config) (func : callable)
    (args : list value) (kwargs : list (string * value)) (w : world) :
  args ≠ [] ∨ kwargs ≠ [] →
  ∃ msg, call_decorated cfg func args kwargs w
         = (w, Raise (Exn TypeError msg)).
Proof.
  intros Hsome. unfold call_decorated.
  destruct args as [|a args].
  - destruct kwargs as [|kw kwargs]; [|by eexists].
    by destruct Hsome.
  - by eexists.
Qed.

Lemma decorated_rejects_arguments_witness :
  [VInt 1] ≠ []
  ∧ ∃ msg, call_decorated (Config [] "" false) foo [VInt 1] [] world0
           = (world0, Raise (Exn TypeError msg)).
Proof.
  assert ([VInt 1] ≠ []) as Hargs by discriminate.
  split; [exact Hargs|].
  exact (decorated_rejects_arguments (Config [] "" false) foo [VInt 1] []
           world0 (or_introl Hargs)).
Defined.

(** Without arguments the call is the decorated body itself. *)
Lemma call_decorated_no_arguments (cfg : config) (func : callable)
    (w : world) :
  call_decorated cfg func [] [] w = decorated cfg func w.
Proof. reflexivity. Qed.

(** ** The scenarios of [tests/test.py] *)

(** [key_vars=['i']]: [i] is detected on the failing line and is not
    traced a second time; [j] is not shown. *)
Example scenario_detected_key_var :
  variable_catching ["i"] [division_record]
  = Ok ("/*Variables*/" +:+ newline
        +:+ "test.py, line 24" +:+ newline
        +:+ "|-- Detected relevant vars:" +:+ newline
        +:+ "  |-- local: k = 2" +:+ newline
        +:+ "  |-- local: i = 0" +:+ newline).
Proof. reflexivity. Qed.

(** [key_vars=['l']]: the global [l] is traced. *)
Example scenario_global_key_var :
  variable_catching ["l"] [division_record]
  = Ok ("/*Variables*/" +:+ newline
        +:+ "test.py, line 24" +:+ newline
        +:+ "|-- Detected relevant vars:" +:+ newline
        +:+ "  |-- local: k = 2" +:+ newline
        +:+ "  |-- local: i = 0" +:+ newline
        +:+ "|-- Other traced vars:" +:+ newline
        +:+ "  |-- global: l = 4" +:+ newline).
Proof. reflexivity. Qed.

(** No finding in any frame: no section at all. *)
Example scenario_no_findings :
  variable_catching ["zz"] [silent_record; silent_record] = Ok "".
Proof. reflexivity. Qed.

(** ** More on [parse_vars] *)

Lemma map_result_ext {A B} (f g : A → result B) (xs : list A) :
  (∀ x, x ∈ xs → f x = g x) → map_result f xs = map_result g xs.
Proof.
  induction xs as [|x xs IH]; intros Heq; [done|].
  cbn [map_result]. rewrite (Heq x) by (by left).
  rewrite IH; [done|]. intros y ?. apply Heq. by right.
Qed.

Lemma map_result_Ok_elem {A B} (f : A → result B) (xs : list A)
    (ys : list B) :
  map_result f xs = Ok ys →
  ∀ y, y ∈ ys → ∃ x, x ∈ xs ∧ f x = Ok y.
Proof.
  revert ys; induction xs as [|x xs IH]; intros ys; cbn [map_result].
  - intros [= <-] y ?%not_elem_of_nil. done.
  - destruct (f x) as [y0|e] eqn:Hfx; [|done]. rewrite bind_Ok.
    destruct (map_result f xs) as [ys0|e]; [|done]. rewrite bind_Ok.
    intros [= <-] y [->|Hy]%elem_of_cons.
    + exists x. split; [by left|done].
    + destruct (IH ys0 eq_refl y Hy) as (x' & ? & ?).
      exists x'. split; [by right|done].
Qed.

Lemma first_by_name_names (vars : list finding) :
  ∀ seen n,
    n ∈ map f_name (first_by_name seen vars)
    ↔ n ∈ map f_name vars ∧ n ∉ seen.
Proof.
  induction vars as [|x vars IH]; intros seen n; cbn [first_by_name map].
  - split; [by intros ?%not_elem_of_nil|by intros [?%not_elem_of_nil _]].
  - case_bool_decide as Hseen.
    + rewrite IH, elem_of_cons. split; [intros [? ?]; by auto|].
      intros [[->|?] ?]; [done|by split].
    + cbn [map]. rewrite !elem_of_cons, IH, elem_of_cons. split.
      * intros [->|[? Hn]]; [by auto|]. split; [by right|]. by auto.
      * intros [[->|?] Hn]; [by left|].
        destruct (decide (n = f_name x)) as [?|?]; [by left|].
        right. split; [done|]. by intros [?|?].
Qed.

Lemma first_by_name_NoDup (vars : list finding) :
  ∀ seen, NoDup (map f_name (first_by_name seen vars)).
Proof.
  induction vars as [|x vars IH]; intros seen; cbn [first_by_name map].
  - apply NoDup_nil_2.
  - case_bool_decide as Hseen; [apply IH|].
    cbn [map]. apply NoDup_cons. split; [|apply IH].
    rewrite first_by_name_names. intros [_ Hn]. apply Hn. by left.
Qed.

(** X1. [parse_vars] returns one line per distinct name of its input. *)
Theorem parse_vars_one_line_per_name (vars : list finding)
    (dump : list string) :
  parse_vars vars = Ok dump →
  length dump = length (remove_dups (map f_name vars)).
Proof.
  rewrite parse_vars_spec. intros Hdump%map_result_Ok_length.
  rewrite Hdump, <- (length_map f_name).
  apply Permutation_length, NoDup_Permutation.
  - apply first_by_name_NoDup.
  - apply NoDup_remove_dups.
  - intros n. rewrite first_by_name_names, elem_of_remove_dups.
    split; [by intros [? _]|]. intros ?. split; [done|apply not_elem_of_nil].
Qed.

Lemma parse_vars_one_line_per_name_witness :
  parse_vars (scanned division_record ++ scanned division_record)
  = Ok ["local: k = 2"; "local: i = 0"]
  ∧ length ["local: k = 2"; "local: i = 0"]
    = length (remove_dups
                (map f_name
                   (scanned division_record ++ scanned division_record))).
Proof.
  split; [reflexivity|].
  apply (parse_vars_one_line_per_name
           (scanned division_record ++ scanned division_record)).
  reflexivity.
Defined.

Lemma first_by_name_skip (a : list finding) (x : finding) (b : list finding) :
  ∀ seen,
    f_name x ∈ seen ∨ f_name x ∈ map f_name a →
    first_by_name seen (a ++ x :: b) = first_by_name seen (a ++ b).
Proof.
  induction a as [|y a IH]; intros seen Hx; cbn [app first_by_name map] in *.
  - destruct Hx as [Hx|Hx]; [|by apply not_elem_of_nil in Hx].
    by rewrite bool_decide_eq_true_2.
  - case_bool_decide as Hy.
    + apply IH. destruct Hx as [?|[Heq|?]%elem_of_cons]; [by left| |by right].
      left. by rewrite Heq.
    + f_equal. apply IH.
      destruct Hx as [?|[Heq|?]%elem_of_cons]; [left; by right| |by right].
      left. rewrite Heq. by left.
Qed.

(** X2. An entry whose name was met earlier in the list is skipped
    before its value is looked at: removing it changes nothing, also
    when its string conversion would raise. *)
Theorem parse_vars_skips_repeated_name (a b : list finding) (x : finding) :
  f_name x ∈ map f_name a →
  parse_vars (a ++ x :: b) = parse_vars (a ++ b).
Proof.
  intros Hx. rewrite !parse_vars_spec.
  rewrite first_by_name_skip; [done|by right].
Qed.

Lemma parse_vars_skips_repeated_name_witness :
  "b" ∈ map f_name [("b", Some "local", VInt 1)]
  ∧ parse_vars ([("b", Some "local", VInt 1)]
                ++ ("b", Some "global", unprintable) :: [])
    = Ok ["local: b = 1"].
Proof.
  assert ("b" ∈ map f_name [("b", Some "local", VInt 1)]) as Hb by (by left).
  split; [exact Hb|].
  exact (parse_vars_skips_repeated_name
           [("b", Some "local", VInt 1)] []
           ("b", Some "global", unprintable) Hb).
Defined.

(** X3. Unless a value is this module's own [__UNDEF__] list, every
    line [parse_vars] returns has the form [where: name = value]; a
    name [cgitb] could not resolve, which comes with [cgitb]'s own
    [__UNDEF__], is thus shown as [None: name = []] and not as
    [name undefined]. *)
Theorem parse_vars_lines_without_own_undef (vars : list finding)
    (dump : list string) :
  (∀ x, x ∈ vars → is_UNDEF (f_value x) = false) →
  parse_vars vars = Ok dump →
  ∀ line, line ∈ dump →
    ∃ x shown, x ∈ vars ∧ py_format (f_value x) = Ok shown
               ∧ line = fmt_where (f_where x) +:+ ": " +:+ f_name x
                        +:+ " = " +:+ shown.
Proof.
  intros Hdef. rewrite parse_vars_spec. intros Hdump line Hline.
  destruct (map_result_Ok_elem _ _ _ Hdump line Hline) as (x & Hx & Hr).
  apply first_by_name_subset in Hx as [Hx _].
  unfold render in Hr. rewrite (Hdef x Hx) in Hr.
  destruct (py_format (f_value x)) as [shown|e] eqn:Hshown; [|done].
  rewrite bind_Ok in Hr. injection Hr as <-. by exists x, shown.
Qed.

Lemma parse_vars_lines_without_own_undef_witness :
  parse_vars [("x", None, VCgitbUndef)] = Ok ["None: x = []"]
  ∧ ∃ x shown, x ∈ [("x", None, VCgitbUndef)]
               ∧ py_format (f_value x) = Ok shown
               ∧ "None: x = []" = fmt_where (f_where x) +:+ ": " +:+ f_name x
                                  +:+ " = " +:+ shown.
Proof.
  split; [reflexivity|].
  apply (parse_vars_lines_without_own_undef
           [("x", None, VCgitbUndef)] ["None: x = []"]).
  - intros x Hx. apply list_elem_of_singleton in Hx. by subst x.
  - reflexivity.
  - by left.
Defined.

(** ** More on the manually traced entries *)

Lemma manual_step_app (fr : frame) (done : list string)
    (acc : list finding) (k : string) :
  manual_step fr (f_locals fr) done acc k
  = acc ++ manual_step fr (f_locals fr) done [] k.
Proof.
  unfold manual_step. case_bool_decide; [|by rewrite app_nil_r].
  destruct (lookup k fr (f_locals fr)) as [where_ v].
  destruct (where_truthy where_); [done|by rewrite app_nil_r].
Qed.

Lemma manual_loop_app (fr : frame) (done : list string)
    (key_vars : list string) :
  ∀ acc,
    foldl (manual_step fr (f_locals fr) done) acc key_vars
    = acc ++ foldl (manual_step fr (f_locals fr) done) [] key_vars.
Proof.
  induction key_vars as [|k key_vars IH]; intros acc; cbn [foldl].
  - by rewrite app_nil_r.
  - rewrite IH, (IH (manual_step _ _ _ [] k)), manual_step_app.
    by rewrite <- app_assoc.
Qed.

Lemma manual_caught_cons (k : string) (key_vars : list string)
    (rec : record) :
  manual_caught (k :: key_vars) rec
  = manual_step (r_frame rec) (f_locals (r_frame rec))
      (map f_name (scanned rec)) [] k
    ++ manual_caught key_vars rec.
Proof. unfold manual_caught. cbn [foldl]. apply manual_loop_app. Qed.

Lemma manual_caught_app (kv1 kv2 : list string) (rec : record) :
  manual_caught (kv1 ++ kv2) rec
  = manual_caught kv1 rec ++ manual_caught kv2 rec.
Proof. unfold manual_caught. rewrite foldl_app. apply manual_loop_app. Qed.

Lemma manual_caught_adds (key_vars : list string) (rec : record)
    (name : string) (where_ : option string) (v : value) :
  name ∈ key_vars →
  name ∉ map f_name (scanned rec) →
  lookup name (r_frame rec) (f_locals (r_frame rec)) = (where_, v) →
  where_truthy where_ = true →
  (name, where_, v) ∈ manual_caught key_vars rec.
Proof.
  intros Hin Hscan Hlook Htruthy.
  induction key_vars as [|k key_vars IH]; [by apply not_elem_of_nil in Hin|].
  rewrite manual_caught_cons. apply elem_of_app.
  apply elem_of_cons in Hin as [<-|Hin]; [left|right; by apply IH].
  unfold manual_step. rewrite bool_decide_eq_true_2 by done.
  rewrite Hlook, Htruthy. by left.
Qed.

(** X4. An entry under [Other traced vars] bears a name of [key_vars]
    that [cgitb.scanvars] did not return, with the binding of the first
    scope that has the name: local, else global, else builtin. *)
Theorem traced_entry_scope (key_vars : list string) (rec : record)
    (x : finding) :
  x ∈ traced key_vars rec →
  f_name x ∈ key_vars
  ∧ (f_name x ∉ map f_name (scanned rec))
  ∧ ((f_where x = Some "local"
      ∧ f_locals (r_frame rec) !! f_name x = Some (f_value x))
     ∨ (f_where x = Some "global"
        ∧ f_locals (r_frame rec) !! f_name x = None
        ∧ f_globals (r_frame rec) !! f_name x = Some (f_value x))
     ∨ (f_where x = Some "builtin"
        ∧ f_locals (r_frame rec) !! f_name x = None
        ∧ f_globals (r_frame rec) !! f_name x = None
        ∧ ∃ builtins, f_builtins (r_frame rec) = Some builtins
                      ∧ builtins !! f_name x = Some (f_value x))).
Proof.
  intros [Hx _]%first_by_name_subset.
  apply manual_caught_entries in Hx as (Hkey & Hscan & Hlook & Htruthy).
  split; [done|]. split; [done|].
  unfold lookup in Hlook.
  destruct (f_locals (r_frame rec) !! f_name x) as [v|] eqn:Hloc.
  { injection Hlook as <- <-. by left. }
  destruct (f_globals (r_frame rec) !! f_name x) as [v|] eqn:Hglob.
  { injection Hlook as <- <-. right; by left. }
  destruct (f_builtins (r_frame rec)) as [builtins|] eqn:Hb.
  - destruct (builtins !! f_name x) as [v|] eqn:Hbn.
    + injection Hlook as <- <-. right; right. split_and!; try done.
      by exists builtins.
    + injection Hlook as Hw _. by rewrite <- Hw in Htruthy.
  - injection Hlook as Hw _. by rewrite <- Hw in Htruthy.
Qed.

Lemma traced_entry_scope_witness :
  ("l", Some "global", VInt 4) ∈ traced ["l"] division_record
  ∧ f_locals (r_frame division_record) !! "l" = None
  ∧ f_globals (r_frame division_record) !! "l" = Some (VInt 4).
Proof.
  assert (("l", Some "global", VInt 4) ∈ traced ["l"] division_record)
    as Hin by (by left).
  split; [exact Hin|].
  destruct (traced_entry_scope ["l"] division_record
              ("l", Some "global", VInt 4) Hin)
    as (_ & _ & [[Hw _]|[(_ & Hl & Hg)|[Hw _]]]).
  - discriminate Hw.
  - exact (conj Hl Hg).
  - discriminate Hw.
Defined.

Lemma found_key_var_filter (key_vars : list string) (rec : record)
    (name : string) (where_ : option string) (v : value) :
  name ∈ key_vars →
  name ∉ map f_name (scanned rec) →
  lookup name (r_frame rec) (f_locals (r_frame rec)) = (where_, v) →
  where_truthy where_ = true →
  filter (λ x, f_name x = name) (traced key_vars rec) = [(name, where_, v)].
Proof.
  intros Hin Hscan Hlook Htruthy.
  pose proof (manual_caught_adds _ _ _ _ _ Hin Hscan Hlook Htruthy) as Hm.
  assert (length (filter (λ x, f_name x = name) (traced key_vars rec)) = 1)
    as Hlen.
  { unfold traced. rewrite first_by_name_count.
    rewrite bool_decide_eq_false_2 by apply not_elem_of_nil.
    rewrite bool_decide_eq_true_2; [done|].
    by apply (elem_of_names (name, where_, v)). }
  assert (∀ x, x ∈ filter (λ x, f_name x = name) (traced key_vars rec) →
               x = (name, where_, v)) as Hall.
  { intros [[n w'] v'] [Hn [Hx _]%first_by_name_subset]%list_elem_of_filter.
    apply manual_caught_entries in Hx as (_ & _ & Hl & _).
    cbn in Hn, Hl. subst n. rewrite Hlook in Hl. by injection Hl as <- <-. }
  destruct (filter _ (traced key_vars rec)) as [|y [|z l]]; try done.
  f_equal. apply Hall. by left.
Qed.

(** X5. In a frame for which [cgitb.scanvars] returns, a name of
    [key_vars] that it did not return and that [cgitb.lookup] finds has
    exactly one entry among the entries listed under
    [Other traced vars], however often [key_vars] repeats it: the scope
    and the value that the lookup gives.  The text [frame_step] adds is
    the section of the frame, with the heading [Other traced vars]
    followed by one line per traced entry. *)
Theorem found_key_var_traced_once (key_vars : list string) (rec : record)
    (vars : list finding) (name : string) (where_ : option string)
    (v : value) (msg : string) (flag : bool) :
  r_scanvars rec = Ok vars →
  name ∈ key_vars →
  name ∉ map f_name vars →
  lookup name (r_frame rec) (f_locals (r_frame rec)) = (where_, v) →
  where_truthy where_ = true →
  filter (λ x, f_name x = name) (traced key_vars rec) = [(name, where_, v)]
  ∧ frame_step key_vars (msg, flag) rec
    = (auto ← map_result render (detected rec) ;
       manual ← map_result render (traced key_vars rec) ;
       Ok (msg
           +:+ (if flag then variables_header else "")
           +:+ r_file rec +:+ ", line " +:+ pretty (r_lnum rec) +:+ newline
           +:+ match auto with
               | [] => ""
               | _ =>
                 detected_header
                 +:+ str_concat
                       (map (λ var, "  |-- " +:+ str_take 200 var +:+ newline)
                            auto)
               end
           +:+ traced_header
           +:+ str_concat
                 (map (λ var, "  |-- " +:+ str_take 200 var +:+ newline)
                      manual),
           false)).
Proof.
  intros Hvars Hin Hscan Hlook Htruthy.
  rewrite <- (scanned_Ok rec vars Hvars) in Hscan.
  pose proof (found_key_var_filter _ _ _ _ _ Hin Hscan Hlook Htruthy)
    as Hone.
  split; [done|].
  rewrite frame_step_lines, Hvars, bind_Ok.
  destruct (map_result render (detected rec)) as [auto|e]; [|done].
  rewrite !bind_Ok.
  destruct (map_result render (traced key_vars rec)) as [manual|e] eqn:Hman;
    [|done].
  rewrite !bind_Ok. cbn zeta.
  apply map_result_Ok_length in Hman.
  destruct manual as [|m manual].
  { destruct (traced key_vars rec); [done|discriminate Hman]. }
  rewrite bool_decide_eq_true_2 by (by right).
  rewrite andb_true_r. cbn [negb]. rewrite andb_false_r.
  f_equal. f_equal. unfold block, var_line.
  by rewrite !str_app_assoc.
Qed.

Lemma found_key_var_traced_once_witness :
  "l" ∈ ["l"; "i"; "l"]
  ∧ filter (λ x, f_name x = "l") (traced ["l"; "i"; "l"] division_record)
    = [("l", Some "global", VInt 4)]
  ∧ frame_step ["l"; "i"; "l"] ("", true) division_record
    = Ok ("/*Variables*/" +:+ newline
          +:+ "test.py, line 24" +:+ newline
          +:+ "|-- Detected relevant vars:" +:+ newline
          +:+ "  |-- local: k = 2" +:+ newline
          +:+ "  |-- local: i = 0" +:+ newline
          +:+ "|-- Other traced vars:" +:+ newline
          +:+ "  |-- global: l = 4" +:+ newline, false).
Proof.
  assert ("l" ∈ ["l"; "i"; "l"]) as Hin by (by left).
  split; [exact Hin|].
  destruct (found_key_var_traced_once ["l"; "i"; "l"] division_record
              [("k", Some "local", VInt 2); ("i", Some "local", VInt 0)]
              "l" (Some "global") (VInt 4) "" true eq_refl Hin)
    as [Hone Htext].
  - intros [H|[H|H]%elem_of_cons]%elem_of_cons.
    + discriminate H.
    + discriminate H.
    + by apply not_elem_of_nil in H.
  - reflexivity.
  - reflexivity.
  - split; [exact Hone|]. rewrite Htext. reflexivity.
Defined.

Lemma traced_repeated_key_var (kv1 kv2 : list string) (k : string)
    (rec : record) :
  k ∈ kv1 →
  traced (kv1 ++ k :: kv2) rec = traced (kv1 ++ kv2) rec.
Proof.
  intros Hk. unfold traced.
  rewrite !manual_caught_app, manual_caught_cons.
  unfold manual_step at 1. case_bool_decide as Hscan; [|done].
  destruct (lookup k (r_frame rec) (f_locals (r_frame rec)))
    as [where_ v] eqn:Hlook.
  destruct (where_truthy where_) eqn:Htruthy; [|done].
  cbn [app]. apply first_by_name_skip. right.
  apply (elem_of_names (k, where_, v)).
  by apply manual_caught_adds.
Qed.

(** X6. Naming a variable a second time in [key_vars] changes nothing
    in what [variable_catching] returns. *)
Theorem repeated_key_var_is_harmless (kv1 kv2 : list string) (k : string)
    (records : list record) :
  k ∈ kv1 →
  variable_catching (kv1 ++ k :: kv2) records
  = variable_catching (kv1 ++ kv2) records.
Proof.
  intros Hk. rewrite !variable_catching_spec.
  rewrite (map_result_ext (frame_section (kv1 ++ k :: kv2))
             (frame_section (kv1 ++ kv2))); [done|].
  intros rec _. unfold frame_section.
  by rewrite traced_repeated_key_var.
Qed.

Lemma repeated_key_var_is_harmless_witness :
  "l" ∈ ["i"; "l"]
  ∧ variable_catching (["i"; "l"] ++ "l" :: ["j"]) [division_record]
    = variable_catching (["i"; "l"] ++ ["j"]) [division_record].
Proof.
  assert ("l" ∈ ["i"; "l"]) as Hin by (right; left).
  split; [exact Hin|].
  exact (repeated_key_var_is_harmless ["i"; "l"] ["j"] "l"
           [division_record] Hin).
Defined.

Lemma first_by_name_sublist (vars : list finding) :
  ∀ seen, map f_name (first_by_name seen vars) `sublist_of` map f_name vars.
Proof.
  induction vars as [|x vars IH]; intros seen; cbn [first_by_name map].
  - apply sublist_nil.
  - case_bool_decide.
    + apply sublist_cons, IH.
    + cbn [map]. apply sublist_skip, IH.
Qed.

Lemma manual_caught_sublist (key_vars : list string) (rec : record) :
  map f_name (manual_caught key_vars rec) `sublist_of` key_vars.
Proof.
  induction key_vars as [|k key_vars IH]; [apply sublist_nil|].
  rewrite manual_caught_cons. unfold manual_step.
  case_bool_decide; [|by apply sublist_cons].
  destruct (lookup k (r_frame rec) (f_locals (r_frame rec))) as [where_ v].
  destruct (where_truthy where_); [|by apply sublist_cons].
  cbn [app map]. by apply sublist_skip.
Qed.

(** X7. The entries under [Other traced vars] follow the order of
    [key_vars] and no name comes twice: their names are a subsequence
    of [key_vars] without repetition. *)
Theorem traced_follows_key_vars (key_vars : list string) (rec : record) :
  map f_name (traced key_vars rec) `sublist_of` key_vars
  ∧ NoDup (map f_name (traced key_vars rec)).
Proof.
  split; [|apply first_by_name_NoDup].
  etrans; [apply first_by_name_sublist|apply manual_caught_sublist].
Qed.

(** ** More on the text of [variable_catching] *)

Lemma map_result_Forall2 {A B} (f : A → result B) (xs : list A)
    (ys : list B) :
  map_result f xs = Ok ys → Forall2 (λ x y, f x = Ok y) xs ys.
Proof.
  revert ys; induction xs as [|x xs IH]; intros ys; cbn [map_result].
  - intros [= <-]. constructor.
  - destruct (f x) as [y|e] eqn:Hfx; [|done]. rewrite bind_Ok.
    destruct (map_result f xs) as [ys'|e]; [|done]. rewrite bind_Ok.
    intros [= <-]. constructor; [done|by apply IH].
Qed.

Lemma variables_text_empty (secs : list section) :
  variables_text secs = "" ↔ existsb has_findings secs = false.
Proof.
  unfold variables_text. destruct (existsb has_findings secs); [|done].
  split; [|done]. unfold variables_header. intros Heq. discriminate Heq.
Qed.

Lemma no_section_has_findings (key_vars : list string)
    (records : list record) (secs : list section) :
  Forall2 (λ rec sec, frame_section key_vars rec = Ok sec) records secs →
  existsb has_findings secs = false
  ↔ ∀ rec, rec ∈ records → detected rec = [] ∧ traced key_vars rec = [].
Proof.
  induction 1 as [|rec sec records secs Hsec _ IH]; cbn [existsb].
  - split; [|done]. by intros _ rec ?%not_elem_of_nil.
  - rewrite orb_false_iff, IH, (frame_section_has_findings _ _ _ Hsec).
    rewrite bool_decide_eq_false. split.
    + intros [Hnone Hrest] rec' [->|?]%elem_of_cons; [|by apply Hrest].
      destruct (detected rec), (traced key_vars rec); try done;
        destruct Hnone; some_nonempty.
    + intros Hall. split.
      * destruct (Hall rec) as [-> ->]; [by left|]. by intros [?|?].
      * intros rec' ?. apply Hall. by right.
Qed.

(** X8. When [variable_catching] returns, its text is empty exactly
    when no frame has an entry, detected or traced. *)
Theorem variables_empty_iff_no_entry (key_vars : list string)
    (records : list record) (text : string) :
  variable_catching key_vars records = Ok text →
  text = ""
  ↔ ∀ rec, rec ∈ records → detected rec = [] ∧ traced key_vars rec = [].
Proof.
  rewrite variable_catching_spec.
  destruct (map_result (frame_section key_vars) records) as [secs|e] eqn:Hs;
    [|done].
  rewrite bind_Ok. intros [= <-].
  rewrite variables_text_empty.
  by apply no_section_has_findings, map_result_Forall2.
Qed.

Lemma variables_empty_iff_no_entry_witness :
  variable_catching ["zz"] [silent_record; silent_record] = Ok ""
  ∧ ∀ rec, rec ∈ [silent_record; silent_record] →
           detected rec = [] ∧ traced ["zz"] rec = [].
Proof.
  split; [reflexivity|].
  apply (variables_empty_iff_no_entry ["zz"] [silent_record; silent_record] "");
    reflexivity.
Defined.

Lemma var_line_length (var : string) :
  String.length (var_line var) = 7 + 200 `min` String.length var.
Proof.
  unfold var_line. rewrite !str_length_app, str_take_length. cbn. lia.
Qed.

Lemma lines_length (vars : list string) :
  String.length (str_concat (map var_line vars)) ≤ 207 * length vars.
Proof.
  induction vars as [|var vars IH]; cbn [map str_concat length]; [cbn; lia|].
  rewrite str_length_app, var_line_length. lia.
Qed.

(** X9. The lines written for a list of entries add at most 207
    characters each to the report, however long the values are. *)
Theorem emitted_lines_bounded (error_message : string) (vars : list string) :
  String.length (emit_vars error_message vars)
  ≤ String.length error_message + 207 * length vars.
Proof.
  rewrite emit_vars_spec, str_length_app.
  pose proof (lines_length vars). lia.
Qed.

(** ** More on the decorated call *)

(** X10. With an empty [log_file], [ascending] has no effect on the
    decorated call. *)
Theorem ascending_ignored_without_log_file (key_vars : list string)
    (a b : bool) (func : callable) (w : world) :
  decorated (Config key_vars "" a) func w
  = decorated (Config key_vars "" b) func w.
Proof.
  unfold decorated. destruct (func w) as [w1 [v|ei]]; [done|].
  unfold report. cbn [log_file ErrorCatcher.key_vars str_truthy].
  by destruct (variable_catching key_vars (innerframes ei)).
Qed.

(** X11. Beyond what the wrapped call did, the decorated call only
    adds text at the end of standard output and only touches the log
    file: every other file, the set of paths that cannot be opened, the
    clock and the state of the output stream are those the wrapped call
    left, and with an empty [log_file] no file changes at all. *)
Theorem decorated_effects_confined (cfg : config) (func : callable)
    (w w1 : world) (o : outcome) :
  func w = (w1, o) →
  (∃ out, stdout (decorated cfg func w).1 = stdout w1 +:+ out)
  ∧ (∀ path, path ≠ log_file cfg →
             fs (decorated cfg func w).1 !! path = fs w1 !! path)
  ∧ (log_file cfg = "" → fs (decorated cfg func w).1 = fs w1)
  ∧ unopenable (decorated cfg func w).1 = unopenable w1
  ∧ clock (decorated cfg func w).1 = clock w1
  ∧ stdout_error (decorated cfg func w).1 = stdout_error w1.
Proof.
  intros Hfunc.
  assert (∃ out, stdout w1 = stdout w1 +:+ out) as Hsame
    by (exists ""; by rewrite str_app_nil_r).
  destruct o as [v|ei].
  { unfold decorated. rewrite Hfunc. by cbn. }
  destruct (report cfg (clock w1) ei) as [msg|e] eqn:Hreport.
  2: { unfold decorated. rewrite Hfunc, Hreport. by cbn. }
  rewrite (decorated_raised cfg func w w1 ei msg Hfunc Hreport).
  destruct (str_truthy (log_file cfg)) eqn:Hlog.
  - cbn zeta. destruct (stdout_error w1 _) as [e|]; [by cbn|].
    case_bool_decide; cbn; split_and!; try done;
      try (by eexists);
      try (intros Hempty; by rewrite Hempty in Hlog);
      intros path Hne; by rewrite lookup_insert_ne.
  - destruct (stdout_error w1 msg) as [e|]; [by cbn|].
    cbn. split_and!; try done. by eexists.
Qed.

Lemma decorated_effects_confined_witness :
  let cfg := Config ["i"] "test_log.log" true in
  foo world0 = (world0, Raised division_error)
  ∧ fs (decorated cfg foo world0).1 !! "other.txt" = fs world0 !! "other.txt"
  ∧ unopenable (decorated cfg foo world0).1 = unopenable world0.
Proof.
  intros cfg. split; [reflexivity|].
  destruct (decorated_effects_confined cfg foo world0 world0
              (Raised division_error) eq_refl)
    as (_ & Hfiles & _ & Hopen & _ & _).
  split; [|exact Hopen].
  apply Hfiles. discriminate.
Defined.

(** X12. When building the report raises, that exception leaves the
    decorated call before anything is printed or written: the world is
    the one the wrapped call left. *)
Theorem report_failure_precedes_output (cfg : config) (func : callable)
    (w w1 : world) (ei : exc_info) (e : exn) :
  func w = (w1, Raised ei) →
  variable_catching (key_vars cfg) (innerframes ei) = Raise e →
  decorated cfg func w = (w1, Raise e).
Proof.
  apply decorated_report_raises.
Qed.

Lemma report_failure_precedes_output_witness :
  variable_catching [] (innerframes attribute_error)
  = Raise (Exn ValueError "__str__ failed")
  ∧ decorated (Config [] "test_log.log" true)
      (λ w, (w, Raised attribute_error)) world0
    = (world0, Raise (Exn ValueError "__str__ failed")).
Proof.
  split; [reflexivity|].
  apply (report_failure_precedes_output (Config [] "test_log.log" true)
           (λ w, (w, Raised attribute_error)) world0 world0 attribute_error);
    reflexivity.
Defined.

(** X13. A report that is built is never empty: it is the line of 32
    dashes, the time stamp, a blank line, the traceback under its
    heading, what [variable_catching] returned, and two line breaks. *)
Theorem report_layout (cfg : config) (timestamp : string) (ei : exc_info)
    (msg : string) :
  report cfg timestamp ei = Ok msg →
  ∃ caught,
    variable_catching (key_vars cfg) (innerframes ei) = Ok caught
    ∧ msg = "--------------------------------" +:+ newline
            +:+ timestamp +:+ newline +:+ newline
            +:+ "/*Original Traceback*/" +:+ newline
            +:+ format_exc ei +:+ newline
            +:+ caught +:+ newline +:+ newline.
Proof.
  unfold report.
  destruct (variable_catching (key_vars cfg) (innerframes ei))
    as [caught|e]; [|done].
  rewrite bind_Ok. intros [= <-]. exists caught. split; [done|].
  cbn [str_repeat].
  change (str_truthy _) with true. cbn iota.
  by rewrite !str_app_assoc.
Qed.

Lemma report_layout_witness :
  ∃ msg caught,
    report (Config ["zz"] "" false) "2020-05-17 10:00:00"
      (ExcInfo (Exn IndexError "list index out of range") "IndexError" [])
    = Ok msg
    ∧ variable_catching ["zz"] [] = Ok caught
    ∧ msg = "--------------------------------" +:+ newline
            +:+ "2020-05-17 10:00:00" +:+ newline +:+ newline
            +:+ "/*Original Traceback*/" +:+ newline
            +:+ "IndexError" +:+ newline
            +:+ caught +:+ newline +:+ newline.
Proof.
  eexists.
  destruct (report_layout (Config ["zz"] "" false) "2020-05-17 10:00:00"
              (ExcInfo (Exn IndexError "list index out of range")
                       "IndexError" [])
              _ eq_refl) as (caught & Hcaught & Hmsg).
  exists caught. split; [reflexivity|]. split; [exact Hcaught|exact Hmsg].
Defined.

(** ** More on the log file *)

Lemma str_concat_app (a b : list string) :
  str_concat (a ++ b) = str_concat a +:+ str_concat b.
Proof.
  induction a as [|x a IH]; [done|].
  cbn [app str_concat]. by rewrite IH, str_app_assoc.
Qed.

(** X14. Any number of reports written one after the other to a log
    file that can be opened: with [ascending] the file holds its former
    content and then the reports in the order written; otherwise it
    holds the reports from the last written to the first, and then its
    former content.  Nothing is printed by these writes. *)
Theorem reports_in_a_row (cfg : config) (msgs : list string) (w : world) :
  log_file cfg ∉ unopenable w →
  ∃ w',
    for_each (λ w msg, persist cfg msg w) w msgs = Ok w'
    ∧ file_content (log_file cfg) w'
      = (if ascending cfg
         then file_content (log_file cfg) w +:+ str_concat msgs
         else str_concat (rev msgs) +:+ file_content (log_file cfg) w)
    ∧ stdout w' = stdout w.
Proof.
  revert w; induction msgs as [|msg msgs IH]; intros w Hopen.
  - exists w. cbn [for_each rev str_concat]. split; [done|]. split; [|done].
    destruct (ascending cfg); [by rewrite str_app_nil_r|done].
  - cbn [for_each]. rewrite (persist_spec cfg msg w Hopen), bind_Ok.
    destruct (IH (set_file (log_file cfg)
                    (if ascending cfg
                     then file_content (log_file cfg) w +:+ msg
                     else msg +:+ file_content (log_file cfg) w) w))
      as (w' & Hrun & Hfile & Hout); [done|].
    exists w'. split; [done|]. split; [|done].
    rewrite Hfile, file_content_set_file.
    destruct (ascending cfg).
    + cbn [str_concat]. by rewrite str_app_assoc.
    + cbn [rev]. rewrite str_concat_app. cbn [str_concat].
      by rewrite str_app_nil_r, str_app_assoc.
Qed.

Lemma reports_in_a_row_witness :
  let cfg := Config [] "test_log.log" false in
  (log_file cfg ∉ unopenable world0)
  ∧ ∃ w',
      for_each (λ w msg, persist cfg msg w) world0 ["one"; "two"; "three"]
      = Ok w'
      ∧ file_content (log_file cfg) w'
        = str_concat (rev ["one"; "two"; "three"])
          +:+ file_content (log_file cfg) world0
      ∧ stdout w' = stdout world0.
Proof.
  intros cfg.
  assert (log_file cfg ∉ unopenable world0) as Hopen
    by apply not_elem_of_empty.
  split; [exact Hopen|].
  exact (reports_in_a_row cfg ["one"; "two"; "three"] world0 Hopen).
Defined.

(** The calls of [tests/test.py] on [test_log.log]: two failures logged
    with [ascending=False], then one with [ascending=True]. *)
Example mixed_order_log :
  let down := Config [""] "test_log.log" false in
  let up := Config ["l"] "test_log.log" true in
  ∃ w1 w2 w3,
    persist down "first" world0 = Ok w1
    ∧ persist down "second" w1 = Ok w2
    ∧ persist up "third" w2 = Ok w3
    ∧ fs w3 !! "test_log.log" = Some "secondfirstthird".
Proof. intros down up. do 3 eexists. split_and!; reflexivity. Qed.

(** ** More on the detected entries and on the result *)




(** X16. Whenever the decorated call returns, it returns [None]:
    after a normal return of the wrapped call as well as after a caught
    exception. *)
Theorem decorated_result_is_None (cfg : config) (func : callable)
    (w : world) (v : value) :
  (decorated cfg func w).2 = Ok v → v = VNone.
Proof.
  unfold decorated. destruct (func w) as [w1 [v0|ei]].
  - cbn. by intros [= <-].
  - destruct (report cfg (clock w1) ei) as [msg|e]; [|done].
    destruct (str_truthy (log_file cfg)).
    + destruct (print _ w1) as [w2|e]; [|done].
      destruct (persist cfg msg w2) as [w3|e]; [|done].
      cbn. by intros [= <-].
    + destruct (print msg w1) as [w2|e]; [|done].
      cbn. by intros [= <-].
Qed.

Lemma decorated_result_is_None_witness :
  (decorated (Config ["i"] "test_log.log" false) foo world0).2 = Ok VNone
  ∧ VNone = VNone.
Proof.
  split; [reflexivity|].
  apply (decorated_result_is_None (Config ["i"] "test_log.log" false)
           foo world0 VNone).
  reflexivity.
Defined.

End ErrorCatcher.
